(** * Skipchain replication handler

    A shallow embedding of [blockchain/skipchain/handler.go] (the RPC
    handler: [Process] for genesis propagation, [Stream] for catch-up) and
    of the stream doubles of [internal/testing/fake/mod.go] ([Receiver],
    [Sender]), with the properties of the handler stated over it.

    Go values are modelled as follows.
    - [error] is the message string; [nil] is [None].  [xerrors.Errorf]
      with the verb [%v] builds a new message around the cause's message.
    - [[]byte] and [Digest] ([32]byte) are [list byte]; [bytes.Equal] is
      [bytes_Equal].
    - [int64] and [uint64] are [Z]; the loop counter's increment wraps as
      in Go.
    - Interfaces ([mino.Sender], [mino.Receiver]) are type classes over the
      implementation's state; the fakes are instances.
    - Every call the handler makes to a collaborator is recorded, in
      order, in a trace of [Event]s, so that "no read", "no further send",
      "no insertion" are statements about the trace. *)

From Stdlib Require Import List String Ascii Strings.Byte ZArith Bool Lia DecimalString.
Import ListNotations.
Local Open Scope string_scope.
Local Open Scope list_scope.
Local Open Scope Z_scope.

Set Implicit Arguments.

(** ** Go values *)

Definition bytes := list byte.

(** Go's [error]: the message; [option Error] is an [error] that may be [nil]. *)
Definition Error := string.

(** A Go result pair [(value, err)] of which exactly one is meaningful. *)
Inductive result (A : Type) : Type :=
| Ok (a : A)
| Err (e : Error).
Arguments Ok {A} a.
Arguments Err {A} e.

(** [bytes.Equal]: same length and same bytes ([nil] equals the empty slice). *)
Fixpoint bytes_Equal (a b : bytes) : bool :=
  match a, b with
  | [], [] => true
  | x :: a', y :: b' => Byte.eqb x y && bytes_Equal a' b'
  | _, _ => false
  end.

(** [%d] of an integer. *)
Definition fmt_d (z : Z) : string := NilZero.string_of_int (Z.to_int z).

(** [xerrors.Errorf(prefix ++ "%v", err)]. *)
Definition Errorf (prefix : string) (cause : Error) : Error :=
  (prefix ++ cause)%string.

(** [int64] arithmetic: the result of [i++] on an [int64]. *)
Definition int64_wrap (z : Z) : Z := (z + 2 ^ 63) mod 2 ^ 64 - 2 ^ 63.
Definition int64_incr (i : Z) : Z := int64_wrap (i + 1).

(** ** Data model *)

(** Modelled from the spec: the declaration of [Digest] is not in the
    handler's file; a hash is a fixed-size value of 32 bytes, of which
    [block.hash[:]] is the slice. *)
Definition Digest := bytes.
Definition Digest_size : nat := 32.

(** The zero value of [Digest]. *)
Definition zero_Digest : Digest := repeat x00 Digest_size.

(** Modelled from the spec: the declaration of [SkipBlock] is not in the
    handler's file; the fields are those of the spec's data model
    (index, hash, previous hash, authority roster, payload).  The handler
    itself reads only [hash] and [GetIndex()]. *)
Record SkipBlock : Type := {
  Index : Z;
  hash : Digest;
  previousHash : Digest;
  authority : list Z;
  payload : bytes
}.

(** [var block SkipBlock]: the zero value. *)
Definition zero_SkipBlock : SkipBlock :=
  {| Index := 0; hash := zero_Digest; previousHash := zero_Digest;
     authority := []; payload := [] |}.

Definition GetIndex (b : SkipBlock) : Z := Index b.
Definition GetHash (b : SkipBlock) : bytes := hash b.

(** Modelled from the spec: a chain is an ordered sequence of links, each
    an authority roster and an aggregate signature over a target hash. *)
Record ChainLink : Type := {
  link_roster : list Z;
  link_target : Digest;
  link_signature : bytes
}.
Definition Chain := list ChainLink.

(** Wire messages, with the fields the handler reads or sets
    ([GetGenesis()], [To], [Block], [Chain]).  [BlockProto] and [any.Any]
    are opaque encodings. *)
Record BlockProto : Type := { bp_data : bytes }.
Record Any : Type := { any_value : bytes }.

Record PropagateGenesis : Type := { Genesis : bytes }.
Record BlockRequest : Type := { To : bytes }.
Record BlockResponse : Type := { Block : BlockProto; Chain_ : option Any }.

Definition GetGenesis (m : PropagateGenesis) : bytes := Genesis m.

(** A value of the interface type [proto.Message]: [nil], one of the
    package's messages (a non-nil pointer), or a message of another Go
    type, of which only the type's name matters.  A nil pointer of one
    of the package's types held in the interface (a nil [BlockRequest]
    pointer) has no value here: on it [Stream] passes its type assertion and
    panics at [req.To].  What is proved below is about the other
    messages. *)
Inductive Message : Type :=
| Msg_nil
| Msg_PropagateGenesis (m : PropagateGenesis)
| Msg_BlockRequest (m : BlockRequest)
| Msg_BlockResponse (m : BlockResponse)
| Msg_other (go_type : string).

(** [%T] of a message. *)
Definition fmt_T (m : Message) : string :=
  match m with
  | Msg_nil => "<nil>"
  | Msg_PropagateGenesis _ => "*skipchain.PropagateGenesis"
  | Msg_BlockRequest _ => "*skipchain.BlockRequest"
  | Msg_BlockResponse _ => "*skipchain.BlockResponse"
  | Msg_other t => t
  end.

(** [mino.Address]: [nil] or an address (the fake's has an index). *)
Inductive Address : Type :=
| Address_nil
| Address_fake (index : Z).

(** [mino.Request]. *)
Record Request : Type := { req_Address : Address; req_Message : Message }.

(** [context.Context]: [context.Background()] is never cancelled; any
    other context carries whether it has been cancelled. *)
Inductive Context : Type :=
| context_Background
| context_WithCancel (cancelled : bool).

(** ** Collaborators *)

(** [mino.Receiver]: [Recv(ctx)] returns [(addr, msg, err)]. *)
Class Receiver (R : Type) : Type := {
  Recv : R -> Context -> R * (Address * Message * option Error)
}.

(** [mino.Sender]: [Send(msg, addrs...)] returns a channel; the handler
    takes its first value, which is what [Send] returns here. *)
Class Sender (S : Type) : Type := {
  Send : S -> BlockResponse -> list Address -> S * option Error
}.

(** The local store: the ordered log of blocks. *)
Definition Database := list SkipBlock.

(** The collaborators reached through the handler's [*operations]:
    [blockFactory.decodeBlock], [insertBlock], [encoder.Pack] (whose
    result the handler asserts to be a [*BlockProto]), [encoder.PackAny],
    [consensus.GetChain], and the store [db].  Their code is not in the
    handler's file: they are parameters of the handler, and [insertBlock]
    returns the store it leaves together with its error. *)
Record operations : Type := {
  decodeBlock : bytes -> result SkipBlock;
  insertBlock : Database -> SkipBlock -> Database * option Error;
  encoder_Pack : SkipBlock -> result BlockProto;
  encoder_PackAny : Chain -> result Any;
  consensus_GetChain : bytes -> result Chain;
  db : Database
}.

Definition set_db (ops : operations) (d : Database) : operations :=
  {| decodeBlock := decodeBlock ops;
     insertBlock := insertBlock ops;
     encoder_Pack := encoder_Pack ops;
     encoder_PackAny := encoder_PackAny ops;
     consensus_GetChain := consensus_GetChain ops;
     db := d |}.

(** [handler] embeds [*operations]. *)
Record handler : Type := { ops : operations }.

Definition newHandler (o : operations) : handler := {| ops := o |}.

(** ** The store *)

Module Store.

(** Modelled from the spec: the store's errors, by the names of the
    spec's taxonomy. *)
Definition NotFoundError : Error := "NotFoundError".
Definition OutOfOrderError : Error := "OutOfOrderError".
Definition DuplicateError : Error := "DuplicateError".
Definition LinkageError : Error := "LinkageError".
Definition ConflictError : Error := "ConflictError".

(** Modelled from the spec: [Read(index)] returns the block at the given
    sequence position and fails with [NotFoundError] if no block exists
    at that index (including negative or future indices). *)
Definition Read (d : Database) (i : Z) : result SkipBlock :=
  if i <? 0 then Err NotFoundError
  else match nth_error d (Z.to_nat i) with
       | Some b => Ok b
       | None => Err NotFoundError
       end.

(** Modelled from the spec: [Len()] is the number of stored blocks. *)
Definition Len (d : Database) : Z := Z.of_nat (List.length d).

(** Modelled from the spec: a previous hash that is absent or zero. *)
Definition empty_hash (h : Digest) : bool := forallb (Byte.eqb x00) h.

(** Modelled from the spec: a block with the same hash already exists. *)
Definition has_hash (d : Database) (h : Digest) : bool :=
  existsb (fun b => bytes_Equal (hash b) h) d.

(** Modelled from the spec: the block's previous hash equals the hash of
    the block at [index-1], or is empty when [index == 0]. *)
Definition linked (d : Database) (b : SkipBlock) : bool :=
  if Index b =? 0 then empty_hash (previousHash b)
  else match Read d (Index b - 1) with
       | Ok p => bytes_Equal (previousHash b) (hash p)
       | Err _ => false
       end.

(** Modelled from the spec: [Insert(block)] appends a block; it fails
    with [OutOfOrderError] if [block.index != currentLength], with
    [DuplicateError] if a block with the same hash already exists, with
    [LinkageError] if [block.previousHash] does not equal the hash of
    the block at [index-1] (or is not empty when [index == 0]). *)
Definition Insert (d : Database) (b : SkipBlock) : result Database :=
  if negb (Index b =? Len d) then Err OutOfOrderError
  else if has_hash d (hash b) then Err DuplicateError
  else if negb (linked d b) then Err LinkageError
  else Ok (d ++ [b]).

(** Modelled from the spec: [operations.insertBlock] is not in the
    handler's file; it is step 3 of the spec's genesis propagation:
    [Store.Insert(genesis)]; if the store already has a block at index 0
    with a different hash, fail with [ConflictError] (the store's
    [DuplicateError]/[OutOfOrderError] surface this); if it already has
    the identical genesis, treat as success (idempotent).  A block's hash
    is its identity.  Any other error of the store is returned as it
    is. *)
Definition insertBlock (d : Database) (b : SkipBlock) : Database * option Error :=
  match Insert d b with
  | Ok d' => (d', None)
  | Err e =>
      if ((e =? OutOfOrderError) || (e =? DuplicateError))%string
      then match Read d 0 with
           | Ok g0 =>
               if bytes_Equal (hash g0) (hash b) then (d, None)
               else (d, Some ConflictError)
           | Err _ => (d, Some e)
           end
      else (d, Some e)
  end.

End Store.

(** ** The stream doubles of [internal/testing/fake] *)

Module fake.

(** [fake.Receiver].  [Msg] is the slice given to [NewReceiver]; the
    empty list is the [nil] slice (what [NewReceiver()] and
    [NewBadReceiver()] hold). *)
Record Receiver : Type := {
  r_err : option Error;
  Msg : list Message;
  r_index : nat
}.

Definition NewReceiver (msgs : list Message) : Receiver :=
  {| r_err := None; Msg := msgs; r_index := 0 |}.

Definition NewBadReceiver : Receiver :=
  {| r_err := Some "fake error"; Msg := []; r_index := 0 |}.

(** [Receiver.Recv] (pointer receiver): the consecutive messages of [Msg], then the last
    one again; the address is always [nil]; the context is ignored. *)
Definition Recv (r : Receiver) (_ : Context)
  : Receiver * (Address * Message * option Error) :=
  match Msg r with
  | [] => (r, (Address_nil, Msg_nil, r_err r))
  | _ :: _ =>
      if (List.length (Msg r) <=? r_index r)%nat
      then (r, (Address_nil, last (Msg r) Msg_nil, r_err r))
      else ({| r_err := r_err r; Msg := Msg r; r_index := S (r_index r) |},
            (Address_nil, nth (r_index r) (Msg r) Msg_nil, r_err r))
  end.

(** [fake.Sender]. *)
Record Sender : Type := { s_err : option Error }.

Definition NewSender : Sender := {| s_err := None |}.


(** [Sender.Send]: the channel holds [s.err]. *)
Definition Send (s : Sender) (_ : BlockResponse) (_ : list Address)
  : Sender * option Error :=
  (s, s_err s).

End fake.

#[export] Instance fake_Receiver : Receiver fake.Receiver :=
  {| Recv := fake.Recv |}.

#[export] Instance fake_Sender : Sender fake.Sender :=
  {| Send := fake.Send |}.

(** ** The requesting peer

    A [mino.Sender] that keeps what it is handed, each message with its
    destinations, in order: the other end of the stream.  It is not part
    of [internal/testing/fake], whose [Sender] keeps nothing; it is used
    to see what [Stream] passes to [Send]. *)

Module peer.

Definition Inbox : Type := list (BlockResponse * list Address).

Definition empty : Inbox := [].

Definition Send (s : Inbox) (resp : BlockResponse) (addrs : list Address)
  : Inbox * option Error :=
  (s ++ [(resp, addrs)], None).

End peer.

#[export] Instance peer_Sender : Sender peer.Inbox :=
  {| Send := peer.Send |}.

(** ** Calls to collaborators *)

(** One entry per call the handler makes, in program order. *)
Inductive Event : Type :=
| EvRecv (ctx : Context)
| EvRead (i : Z)
| EvPack (b : SkipBlock)
| EvGetChain (h : bytes)
| EvPackAny (c : Chain)
| EvSend (resp : BlockResponse) (addr : Address) (err : option Error)
| EvDecode (data : bytes)
| EvInsert (b : SkipBlock).

(** The computations of [Stream]'s loop body: they thread the sender,
    log their calls, and stop at the first error. *)
Definition M (S A : Type) : Type := S -> S * list Event * result A.

Definition ret {S A : Type} (a : A) : M S A := fun s => (s, [], Ok a).

Definition bind {S A B : Type} (m : M S A) (f : A -> M S B) : M S B :=
  fun s =>
    match m s with
    | (s1, t1, Err e) => (s1, t1, Err e)
    | (s1, t1, Ok a) =>
        match f a s1 with
        | (s2, t2, r) => (s2, t1 ++ t2, r)
        end
    end.

Notation "x <- m ;; k" := (bind m (fun x => k))
  (at level 61, m at next level, right associativity).
Notation "m ;;; k" := (bind m (fun _ => k))
  (at level 61, right associativity).

(** A call to a collaborator that does not touch the sender: log it and,
    on failure, return the error built by [wrap]. *)
Definition call {S A : Type} (ev : Event) (r : result A) (wrap : Error -> Error)
  : M S A :=
  fun s => (s, [ev], match r with Ok a => Ok a | Err e => Err (wrap e) end).

(** ** The handler *)

(** [handler.Process]: the response is always [nil]; the result is the
    pair [(response, error)], the handler after the call and the calls
    made. *)
Definition Process (h : handler) (req : Request)
  : (option Message * option Error) * handler * list Event :=
  match req_Message req with
  | Msg_PropagateGenesis in_ =>
      match decodeBlock (ops h) (GetGenesis in_) with
      | Err err =>
          ((None, Some (Errorf "couldn't decode block: " err)), h,
           [EvDecode (GetGenesis in_)])
      | Ok genesis =>
          let (d', err) := insertBlock (ops h) (db (ops h)) genesis in
          let h' := {| ops := set_db (ops h) d' |} in
          let tr := [EvDecode (GetGenesis in_); EvInsert genesis] in
          match err with
          | Some e => ((None, Some (Errorf "couldn't store genesis: " e)), h', tr)
          | None => ((None, None), h', tr)
          end
      end
  | in_ =>
      ((None, Some ("unknown message type '" ++ fmt_T in_ ++ "'")%string), h, [])
  end.

Section Stream.

Context {R S : Type} {RR : Receiver R} {SS : Sender S}.

(** [err = <-out.Send(resp, addr)]. *)
Definition send (resp : BlockResponse) (addr : Address) : M S unit :=
  fun s =>
    let (s', err) := Send s resp [addr] in
    (s', [EvSend resp addr err],
     match err with
     | None => Ok tt
     | Some e => Err (Errorf "couldn't send block: " e)
     end).

(** The body of the loop of [Stream] at counter [i]; it returns the block
    read, which the loop guard then compares with the target. *)
Definition Stream_body (h : handler) (addr : Address) (i : Z) : M S SkipBlock :=
  block <- call (EvRead i) (Store.Read (db (ops h)) i)
             (Errorf ("couldn't read block at index " ++ fmt_d i ++ ": ")%string) ;;
  blockpb <- call (EvPack block) (encoder_Pack (ops h) block)
               (Errorf "couldn't pack block: ") ;;
  chainpb <- (if 0 <? GetIndex block
              then
                chain <- call (EvGetChain (GetHash block))
                           (consensus_GetChain (ops h) (GetHash block))
                           (Errorf ("couldn't get chain to block "
                                      ++ fmt_d (GetIndex block) ++ ": ")%string) ;;
                chainpb <- call (EvPackAny chain) (encoder_PackAny (ops h) chain)
                             (Errorf "couldn't pack chain: ") ;;
                ret (Some chainpb)
              else ret None) ;;
  send {| Block := blockpb; Chain_ := chainpb |} addr ;;;
  ret block.

(** [for i := int64(0); !bytes.Equal(block.hash[:], req.To); i++ { ... }]
    followed by [return nil].  [None] is "out of fuel". *)
Fixpoint Stream_loop (h : handler) (addr : Address) (to : bytes)
    (fuel : nat) (block : SkipBlock) (i : Z) (s : S)
  : option (S * list Event * option Error) :=
  if bytes_Equal (hash block) to then Some (s, [], None)
  else
    match fuel with
    | O => None
    | Datatypes.S fuel' =>
        match Stream_body h addr i s with
        | (s1, t1, Err e) => Some (s1, t1, Some e)
        | (s1, t1, Ok block') =>
            match Stream_loop h addr to fuel' block' (int64_incr i) s1 with
            | Some (s2, t2, r) => Some (s2, t1 ++ t2, r)
            | None => None
            end
        end
    end.

(** [handler.Stream]: the sender as the call leaves it ([out] is an
    interface value: what [Send] did to it stays with the caller), the
    error returned and the calls made.  The loop gets one more unit of
    fuel than the store has blocks, which is enough ([Stream_returns]). *)
Definition Stream_run (h : handler) (out : S) (in_ : R)
  : option (S * option Error * list Event) :=
  match Recv in_ context_Background with
  | (_, (addr, msg, err)) =>
      let t0 := [EvRecv context_Background] in
      match err with
      | Some e => Some (out, Some (Errorf "couldn't receive message: " e), t0)
      | None =>
          match msg with
          | Msg_BlockRequest req =>
              match Stream_loop h addr (To req)
                      (Datatypes.S (List.length (db (ops h)))) zero_SkipBlock 0 out with
              | Some (s, t1, r) => Some (s, r, t0 ++ t1)
              | None => None
              end
          | _ =>
              Some (out,
                    Some ("invalid message type '" ++ fmt_T msg
                            ++ "' != '*skipchain.BlockRequest'")%string, t0)
          end
      end
  end.

(** What [handler.Stream] returns, with the calls it made. *)
Definition Stream (h : handler) (out : S) (in_ : R)
  : option (option Error * list Event) :=
  match Stream_run h out in_ with
  | Some (_, r, tr) => Some (r, tr)
  | None => None
  end.

(** The sender [out] after it has been handed the responses of [l], one
    call of [Send] each, in order. *)
Definition handed (out : S) (l : list (BlockResponse * Address)) : S :=
  fold_left (fun s x => fst (Send s (fst x) [snd x])) l out.

End Stream.

(** ** Reading a trace *)

(** The responses handed to [out.Send], in order, with the destination and
    the error the send returned. *)
Definition sends (tr : list Event) : list (BlockResponse * Address * option Error) :=
  flat_map (fun ev => match ev with
                      | EvSend r a e => [(r, a, e)]
                      | _ => []
                      end) tr.

(** The responses that were sent with success, with their destination. *)
Definition delivered (tr : list Event) : list (BlockResponse * Address) :=
  flat_map (fun x => match x with
                     | (r, a, None) => [(r, a)]
                     | _ => []
                     end) (sends tr).

(** The indices passed to [db.Read], in order. *)
Definition reads (tr : list Event) : list Z :=
  flat_map (fun ev => match ev with EvRead i => [i] | _ => [] end) tr.

(** The blocks passed to [insertBlock], in order. *)
Definition inserts (tr : list Event) : list SkipBlock :=
  flat_map (fun ev => match ev with EvInsert b => [b] | _ => [] end) tr.

(** The byte strings passed to [decodeBlock], in order. *)
Definition decodes (tr : list Event) : list bytes :=
  flat_map (fun ev => match ev with EvDecode d => [d] | _ => [] end) tr.

(** The contexts the handler has waited on. *)
Definition contexts (tr : list Event) : list Context :=
  flat_map (fun ev => match ev with EvRecv c => [c] | _ => [] end) tr.

Definition failed_send (ev : Event) : Prop :=
  match ev with
  | EvSend _ _ (Some _) => True
  | _ => False
  end.

(** The response [Stream] builds for a block: the packed block and, for
    a block of index above zero, the packed chain that the consensus
    engine returns for the block's hash. *)
Definition response_for (o : operations) (b : SkipBlock) (r : BlockResponse) : Prop :=
  encoder_Pack o b = Ok (Block r) /\
  if 0 <? GetIndex b
  then exists chain a,
         consensus_GetChain o (GetHash b) = Ok chain /\
         encoder_PackAny o chain = Ok a /\
         Chain_ r = Some a
  else Chain_ r = None.

(** A set of sender states that sends never leave and from which no send
    fails: what it means for the stream's send half to be working. *)
Definition reliable {S : Type} {SS : Sender S} (good : S -> Prop) : Prop :=
  forall s r a, good s -> snd (Send s r a) = None /\ good (fst (Send s r a)).

(** ** Store validity *)

(** The spec's invariant of the store: the block at position [i] has
    index [i], and no two blocks share a hash. *)
Definition valid_store (d : Database) : Prop :=
  (forall i b, nth_error d i = Some b -> Index b = Z.of_nat i) /\
  NoDup (map hash d).

(** Blocks that remain to be read from counter [i] on. *)
Definition remaining (d : Database) (i : Z) : nat :=
  if i <? 0 then O else (List.length d - Z.to_nat i)%nat.

(** The blocks of the store from counter [i] on. *)
Definition store_from (d : Database) (i : Z) : list SkipBlock :=
  if i <? 0 then [] else skipn (Z.to_nat i) d.

(** A call that returned an error. *)
Definition failed_call (o : operations) (ev : Event) : Prop :=
  match ev with
  | EvRead i => exists e, Store.Read (db o) i = Err e
  | EvPack b => exists e, encoder_Pack o b = Err e
  | EvGetChain hsh => exists e, consensus_GetChain o hsh = Err e
  | EvPackAny c => exists e, encoder_PackAny o c = Err e
  | EvSend _ _ (Some _) => True
  | _ => False
  end.

(** The parts of what [Process] returns. *)
Definition Process_response (r : (option Message * option Error) * handler * list Event)
  : option Message := fst (fst (fst r)).
Definition Process_error (r : (option Message * option Error) * handler * list Event)
  : option Error := snd (fst (fst r)).
Definition Process_handler (r : (option Message * option Error) * handler * list Event)
  : handler := snd (fst r).
Definition Process_trace (r : (option Message * option Error) * handler * list Event)
  : list Event := snd r.

(** ** Cancellation *)

(** The caller's cancellation as the loop could see it: [c k] tells
    whether the caller has cancelled by the time the loop is about to make
    its [k]-th read of the store, counting from 0. *)
Definition CancelSignal := nat -> bool.

(** What observing the cancellation asks of a run: a read that would come
    after the cancellation is not made, and no response is sent from then
    on. *)
Definition observes_cancellation (c : CancelSignal) (tr : list Event) : Prop :=
  forall k, c k = true ->
            (List.length (reads tr) <= k)%nat /\ (List.length (sends tr) <= k)%nat.

(** A caller that cancels once the first response has been sent. *)
Definition cancel_after_first : CancelSignal := fun k => (1 <=? k)%nat.

(** ** A catch-up scenario *)

Module Scenario.

(** The digest made of 32 copies of one byte. *)
Definition digest (x : byte) : Digest := repeat x Digest_size.

Definition block (i : Z) (x prev : byte) : SkipBlock :=
  {| Index := i; hash := digest x; previousHash := digest prev;
     authority := [i; i + 1; i + 2]; payload := [x] |}.

(** A store with blocks 0..5 and rotating authorities. *)
Definition chain6 : Database :=
  [block 0 x01 x00; block 1 x02 x01; block 2 x03 x02;
   block 3 x04 x03; block 4 x05 x04; block 5 x06 x05].

(** A genesis block whose hash is the zero digest. *)
Definition zero_genesis : SkipBlock := block 0 x00 x00.

(** A block codec over a one-byte wire form of a genesis block. *)
Definition decode (data : bytes) : result SkipBlock :=
  match data with
  | [x] => Ok (block 0 x x00)
  | _ => Err "malformed block"
  end.

Definition pack (b : SkipBlock) : result BlockProto :=
  Ok {| bp_data := hash b ++ payload b |}.

Definition get_chain (hsh : bytes) : result Chain :=
  Ok [{| link_roster := []; link_target := hsh; link_signature := [xff] |}].

Definition pack_any (c : Chain) : result Any :=
  Ok {| any_value := List.concat (map link_target c) |}.

(** Collaborators that succeed, over the store [d]. *)
Definition operations_on (d : Database) : operations :=
  {| decodeBlock := decode;
     insertBlock := Store.insertBlock;
     encoder_Pack := pack;
     encoder_PackAny := pack_any;
     consensus_GetChain := get_chain;
     db := d |}.

Definition handler_on (d : Database) : handler := newHandler (operations_on d).

Definition request (target : bytes) : fake.Receiver :=
  fake.NewReceiver [Msg_BlockRequest {| To := target |}].

Definition propagate (data : bytes) : Request :=
  {| req_Address := Address_fake 0;
     req_Message := Msg_PropagateGenesis {| Genesis := data |} |}.

End Scenario.

(** ** The other doubles of [internal/testing/fake]

    Go's [int] is taken to be 64 bits wide.  A call either returns or
    panics (an index out of range, a negative length, a method called on
    a [nil] interface).  [interface{}] and interface values that may be
    [nil] are options, [None] being [nil]; a pointer receiver that may be
    [nil] is an option as well.  The mutexes of [Call] are not modelled:
    calls are sequential. *)

Definition int_wrap (z : Z) : Z := int64_wrap z.

Inductive outcome (A : Type) : Type :=
| Returns (a : A)
| Panics.
Arguments Returns {A} a.
Arguments Panics {A}.

(** [s[i]]: the element, or a panic when [i] is out of range. *)
Definition slice_at {A : Type} (s : list A) (i : Z) : outcome A :=
  if i <? 0 then Panics
  else match nth_error s (Z.to_nat i) with
       | Some a => Returns a
       | None => Panics
       end.

(** [byte(v)] of an unsigned integer and the value of a byte. *)
Definition byte_of_Z (v : Z) : byte :=
  match Byte.of_N (Z.to_N (v mod 256)) with
  | Some b => b
  | None => x00
  end.
Definition Z_of_byte (b : byte) : Z := Z.of_N (Byte.to_N b).

(** [binary.LittleEndian.PutUint32] on a buffer of four bytes, and
    [binary.LittleEndian.Uint32], which reads the first four bytes and
    panics on a shorter slice. *)
Definition PutUint32 (v : Z) : bytes :=
  [byte_of_Z v; byte_of_Z (Z.shiftr v 8);
   byte_of_Z (Z.shiftr v 16); byte_of_Z (Z.shiftr v 24)].

(** [x0 | x1<<8 | x2<<16 | x3<<24]. *)
Definition le32 (x0 x1 x2 x3 : Z) : Z :=
  Z.lor (Z.lor (Z.lor x0 (Z.shiftl x1 8)) (Z.shiftl x2 16)) (Z.shiftl x3 24).

Definition Uint32 (b : bytes) : outcome Z :=
  match b with
  | b0 :: b1 :: b2 :: b3 :: _ =>
      Returns (le32 (Z_of_byte b0) (Z_of_byte b1) (Z_of_byte b2) (Z_of_byte b3))
  | _ => Panics
  end.

Module FakeCall.

Section Call.

(** The type of the recorded arguments. *)
Variable V : Type.

(** [*Call]: [None] is the [nil] pointer, [Some calls] a [Call] whose
    field [calls] is [calls]; an argument of type [interface{}] is an
    [option V]. *)
Definition Call : Type := option (list (list (option V))).

(** [&Call{}]. *)
Definition empty : Call := Some [].

(** [Call.Get] (pointer receiver). *)
Definition Get (c : Call) (n i : Z) : outcome (option V) :=
  match c with
  | None => Returns None
  | Some calls =>
      match slice_at calls n with
      | Returns args => slice_at args i
      | Panics => Panics
      end
  end.

(** [Call.Len] (pointer receiver). *)
Definition Len (c : Call) : Z :=
  match c with
  | None => 0
  | Some calls => Z.of_nat (List.length calls)
  end.

(** [Call.Add] (pointer receiver). *)
Definition Add (c : Call) (args : list (option V)) : Call :=
  match c with
  | None => None
  | Some calls => Some (calls ++ [args])
  end.

(** [Call.Clear] (pointer receiver). *)
Definition Clear (c : Call) : Call :=
  match c with
  | None => None
  | Some _ => Some []
  end.

End Call.

End FakeCall.

Module FakeCounter.

(** [*Counter]: [None] is the [nil] pointer, [Some v] a counter whose
    [Value] is [v]. *)
Definition Counter : Type := option Z.

Definition NewCounter (value : Z) : Counter := Some value.

(** [Counter.Done] (pointer receiver). *)
Definition Done (c : Counter) : bool :=
  match c with
  | None => true
  | Some v => v <=? 0
  end.

(** [Counter.Decrease] (pointer receiver). *)
Definition Decrease (c : Counter) : Counter :=
  match c with
  | None => None
  | Some v => Some (int_wrap (v - 1))
  end.

End FakeCounter.

Module FakeSignature.

(** [fake.Signature]. *)
Record Signature : Type := { sig_err : option Error }.

Definition NewBadSignature : Signature := {| sig_err := Some "fake error" |}.

(** [fake.SignatureFactory].  The counter is reached through a pointer:
    the factory returned by a call stands for every copy of the factory
    after that call. *)
Record SignatureFactory : Type := {
  Counter : FakeCounter.Counter;
  signature : Signature;
  f_err : option Error
}.

Definition NewSignatureFactory (s : Signature) : SignatureFactory :=
  {| Counter := None; signature := s; f_err := None |}.

Definition NewBadSignatureFactory : SignatureFactory :=
  {| Counter := None; signature := {| sig_err := None |};
     f_err := Some "fake error" |}.

Definition NewBadSignatureFactoryWithDelay (value : Z) : SignatureFactory :=
  {| Counter := Some value; signature := {| sig_err := None |};
     f_err := Some "fake error" |}.

(** [SignatureFactory.SignatureOf]; the context and the data are ignored. *)
Definition SignatureOf (f : SignatureFactory)
  : SignatureFactory * (Signature * option Error) :=
  if negb (FakeCounter.Done (Counter f))
  then ({| Counter := FakeCounter.Decrease (Counter f);
           signature := signature f; f_err := f_err f |},
        (signature f, None))
  else (f, (signature f, f_err f)).

(** [SignatureFactory.Deserialize]. *)
Definition Deserialize (f : SignatureFactory)
  : SignatureFactory * (Signature * option Error) :=
  SignatureOf f.

(** The factory after [k] calls of [SignatureOf]. *)
Fixpoint after_calls (k : nat) (f : SignatureFactory) : SignatureFactory :=
  match k with
  | O => f
  | Datatypes.S k' => after_calls k' (fst (SignatureOf f))
  end.

End FakeSignature.

Module FakeAddress.

(** [fake.Address]. *)
Record Address : Type := { index : Z; err : option Error }.

(** A value of the interface type [mino.Address]: [nil], a
    [fake.Address], or an address of another Go type. *)
Inductive mino_Address : Type :=
| addr_nil
| addr_fake (a : Address)
| addr_other (go_type : string).

Definition NewAddress (i : Z) : Address := {| index := i; err := None |}.

Definition NewBadAddress : Address := {| index := 0; err := Some "fake error" |}.

(** [Address.Equal]. *)
Definition Equal (a : Address) (o : mino_Address) : bool :=
  match o with
  | addr_fake other => index other =? index a
  | _ => false
  end.

(** [Address.MarshalText]: the buffer and the error are both returned. *)
Definition MarshalText (a : Address) : bytes * option Error :=
  (PutUint32 (index a mod 2 ^ 32), err a).

(** [Address.String]. *)
Definition String (a : Address) : string :=
  ("fake.Address[" ++ fmt_d (index a) ++ "]")%string.

(** [AddressFactory.FromText]. *)
Definition FromText (text : bytes) : outcome Address :=
  if (4 <=? List.length text)%nat
  then match Uint32 text with
       | Returns v => Returns {| index := v; err := None |}
       | Panics => Panics
       end
  else Returns {| index := 0; err := None |}.

End FakeAddress.

Module FakeIterator.

Section AddressIterator.

(** The type of the elements ([mino.Address]). *)
Variable A : Type.

(** [*AddressIterator]. *)
Record AddressIterator : Type := { addrs : list A; index : Z }.

Definition NewAddressIterator (l : list A) : AddressIterator :=
  {| addrs := l; index := 0 |}.

(** [AddressIterator.Seek] (pointer receiver). *)
Definition Seek (it : AddressIterator) (i : Z) : AddressIterator :=
  {| addrs := addrs it; index := i |}.

(** [AddressIterator.HasNext] (pointer receiver). *)
Definition HasNext (it : AddressIterator) : bool :=
  index it <? Z.of_nat (List.length (addrs it)).

(** [AddressIterator.GetNext] (pointer receiver): the element and the iterator after the
    call. *)
Definition GetNext (it : AddressIterator) : outcome (A * AddressIterator) :=
  match slice_at (addrs it) (index it) with
  | Returns res => Returns (res, {| addrs := addrs it; index := int_wrap (index it + 1) |})
  | Panics => Panics
  end.

(** [k] calls of [GetNext] in a row: the elements returned and the
    iterator after the last call, or a panic if one of the calls
    panics. *)
Fixpoint take_next (k : nat) (it : AddressIterator)
  : outcome (list A * AddressIterator) :=
  match k with
  | O => Returns ([], it)
  | Datatypes.S k' =>
      match GetNext it with
      | Panics => Panics
      | Returns (a, it') =>
          match take_next k' it' with
          | Panics => Panics
          | Returns (l, it'') => Returns (a :: l, it'')
          end
      end
  end.

End AddressIterator.

Section PublicKeyIterator.

(** The signers ([crypto.Signer], [None] being [nil]) and their public
    keys ([crypto.PublicKey]). *)
Variables Signer PublicKey : Type.
Variable GetPublicKey : Signer -> PublicKey.

(** [*PublicKeyIterator]. *)
Record PublicKeyIterator : Type := { signers : list (option Signer); pk_index : Z }.

Definition NewPublicKeyIterator (l : list (option Signer)) : PublicKeyIterator :=
  {| signers := l; pk_index := 0 |}.

(** [PublicKeyIterator.Seek] (pointer receiver). *)
Definition pk_Seek (it : PublicKeyIterator) (i : Z) : PublicKeyIterator :=
  {| signers := signers it; pk_index := i |}.

(** [PublicKeyIterator.HasNext] (pointer receiver). *)
Definition pk_HasNext (it : PublicKeyIterator) : bool :=
  pk_index it <? Z.of_nat (List.length (signers it)).

(** [PublicKeyIterator.GetNext] (pointer receiver): the key ([None] is [nil]) and the
    iterator after the call. *)
Definition pk_GetNext (it : PublicKeyIterator)
  : outcome (option PublicKey * PublicKeyIterator) :=
  if pk_HasNext it
  then match slice_at (signers it) (pk_index it) with
       | Returns (Some res) =>
           Returns (Some (GetPublicKey res),
                    {| signers := signers it; pk_index := int_wrap (pk_index it + 1) |})
       | Returns None => Panics
       | Panics => Panics
       end
  else Returns (None, it).

(** The iterator after [k] calls of [GetNext] that return, or the
    iterator at the first call that panics. *)
Fixpoint pk_after (k : nat) (it : PublicKeyIterator) : PublicKeyIterator :=
  match k with
  | O => it
  | Datatypes.S k' =>
      match pk_GetNext it with
      | Returns (_, it') => pk_after k' it'
      | Panics => it
      end
  end.

End PublicKeyIterator.

End FakeIterator.

Module FakeAuthority.

Section CollectiveAuthority.

(** The signers ([crypto.Signer], [None] being [nil]), their public keys
    ([crypto.PublicKey]) and the type of the arguments that [Call]
    records. *)
Variables Signer PublicKey V : Type.
Variable GetPublicKey : Signer -> PublicKey.

(** [fake.CollectiveAuthority].  The constructors modelled here store
    [fake.Address] values only, so [addrs] is a list of those;
    [NewAuthorityFromMino], which stores the addresses of [mino.Mino]
    instances, is left out. *)
Record CollectiveAuthority : Type := {
  addrs : list FakeAddress.Address;
  signers : list (option Signer);
  Call : FakeCall.Call V;
  PubkeyNotFound : bool
}.

(** [GenSigner]: a function that may return a different signer at each
    call; [g k] is what its [k]-th call from now returns. *)
Definition GenSigner : Type := nat -> option Signer.

(** [NewAuthorityWithBase]; [make] panics on a negative length. *)
Definition NewAuthorityWithBase (base n : Z) (g : GenSigner)
  : outcome CollectiveAuthority :=
  if n <? 0 then Panics
  else Returns
         {| signers := map g (seq 0 (Z.to_nat n));
            addrs := map (fun i => {| FakeAddress.index := int_wrap (Z.of_nat i + base);
                                      FakeAddress.err := None |})
                       (seq 0 (Z.to_nat n));
            Call := None;
            PubkeyNotFound := false |}.

(** [NewAuthority]. *)
Definition NewAuthority (n : Z) (g : GenSigner) : outcome CollectiveAuthority :=
  NewAuthorityWithBase 0 n g.

(** [CollectiveAuthority.GetAddress]. *)
Definition GetAddress (ca : CollectiveAuthority) (i : Z) : outcome FakeAddress.Address :=
  slice_at (addrs ca) i.

(** [CollectiveAuthority.GetSigner]. *)
Definition GetSigner (ca : CollectiveAuthority) (i : Z) : outcome (option Signer) :=
  slice_at (signers ca) i.

(** The loop of [GetPublicKey] over the addresses from position [i] on. *)
Fixpoint find_key (ca : CollectiveAuthority) (addr : FakeAddress.mino_Address)
    (l : list FakeAddress.Address) (i : Z) : outcome (option PublicKey * Z) :=
  match l with
  | [] => Returns (None, -1)
  | address :: l' =>
      if FakeAddress.Equal address addr
      then match slice_at (signers ca) i with
           | Returns (Some s) => Returns (Some (GetPublicKey s), i)
           | Returns None => Panics
           | Panics => Panics
           end
      else find_key ca addr l' (i + 1)
  end.

(** [CollectiveAuthority.GetPublicKey]: the key ([None] is [nil]) and the
    index, or [(nil, -1)]. *)
Definition GetPublicKey_ (ca : CollectiveAuthority) (addr : FakeAddress.mino_Address)
  : outcome (option PublicKey * Z) :=
  if PubkeyNotFound ca then Returns (None, -1)
  else find_key ca addr (addrs ca) 0.

(** The loop of [Take] over the indices of the filter. *)
Fixpoint take_loop (ca : CollectiveAuthority) (indices : list Z)
  : outcome (list FakeAddress.Address * list (option Signer)) :=
  match indices with
  | [] => Returns ([], [])
  | k :: rest =>
      match slice_at (addrs ca) k, slice_at (signers ca) k with
      | Returns a, Returns s =>
          match take_loop ca rest with
          | Returns (la, ls) => Returns (a :: la, s :: ls)
          | Panics => Panics
          end
      | _, _ => Panics
      end
  end.

(** [CollectiveAuthority.Take], given the indices that
    [mino.ApplyFilters] computes from the updaters. *)
Definition Take (ca : CollectiveAuthority) (indices : list Z)
  : outcome CollectiveAuthority :=
  match take_loop ca indices with
  | Returns (la, ls) =>
      Returns {| addrs := la; signers := ls; Call := Call ca; PubkeyNotFound := false |}
  | Panics => Panics
  end.

(** [CollectiveAuthority.Len]. *)
Definition Len (ca : CollectiveAuthority) : Z := Z.of_nat (List.length (signers ca)).

(** [CollectiveAuthority.AddressIterator]. *)
Definition AddressIterator (ca : CollectiveAuthority)
  : FakeIterator.AddressIterator FakeAddress.Address :=
  {| FakeIterator.addrs := addrs ca; FakeIterator.index := 0 |}.

(** [CollectiveAuthority.PublicKeyIterator]. *)
Definition PublicKeyIterator (ca : CollectiveAuthority)
  : FakeIterator.PublicKeyIterator Signer :=
  {| FakeIterator.signers := signers ca; FakeIterator.pk_index := 0 |}.

End CollectiveAuthority.

End FakeAuthority.

Module FakeHash.

Section Hash.

(** A [[]byte] argument as the methods get it: the slice itself (array,
    offset, length), not a copy of its bytes.  None of the methods reads
    the bytes, and [Write] passes the slice as it is to [Call.Add]: a
    caller that rewrites its buffer afterwards sees the new bytes through
    the record. *)
Variable Slice : Type.

(** [*fake.Hash]; [Call] records the slices written. *)
Record Hash : Type := {
  delay : Z;
  err : option Error;
  Call : FakeCall.Call Slice
}.

Definition NewBadHash : Hash :=
  {| delay := 0; err := Some "fake error"; Call := None |}.

Definition NewBadHashWithDelay (d : Z) : Hash :=
  {| delay := d; err := Some "fake error"; Call := None |}.

(** The shared end of [Write], [MarshalBinary] and [UnmarshalBinary]:
    while [delay] is positive it is decremented and the call succeeds. *)
Definition delayed (h : Hash) : Hash * option Error :=
  if 0 <? delay h
  then ({| delay := int_wrap (delay h - 1); err := err h; Call := Call h |}, None)
  else (h, err h).

(** [Hash.Write] (pointer receiver): the count written is always 0. *)
Definition Write (h : Hash) (in_ : Slice) : Hash * (Z * option Error) :=
  let h1 := match Call h with
            | None => h
            | Some _ => {| delay := delay h; err := err h;
                           Call := FakeCall.Add (Call h) [Some in_] |}
            end in
  let (h2, e) := delayed h1 in
  (h2, (0, e)).

(** [Hash.Size] (pointer receiver). *)
Definition Size (h : Hash) : Z := 32.

(** [Hash.Sum] (pointer receiver): a new slice of 32 zero bytes. *)
Definition Sum (h : Hash) (b : Slice) : bytes := repeat x00 32.

(** [Hash.MarshalBinary] (pointer receiver): a new empty slice. *)
Definition MarshalBinary (h : Hash) : Hash * (bytes * option Error) :=
  let (h', e) := delayed h in (h', ([], e)).

(** [Hash.UnmarshalBinary] (pointer receiver). *)
Definition UnmarshalBinary (h : Hash) (data : Slice) : Hash * option Error :=
  delayed h.

(** A call of one of the three methods that share [delay]. *)
Inductive op : Type :=
| OpWrite (in_ : Slice)
| OpMarshalBinary
| OpUnmarshalBinary (data : Slice).

Definition run_op (h : Hash) (o : op) : Hash * option Error :=
  match o with
  | OpWrite in_ => let (h', r) := Write h in_ in (h', snd r)
  | OpMarshalBinary => let (h', r) := MarshalBinary h in (h', snd r)
  | OpUnmarshalBinary data => UnmarshalBinary h data
  end.

(** A sequence of such calls: the hash after them and the error of each. *)
Fixpoint run_ops (h : Hash) (os : list op) : Hash * list (option Error) :=
  match os with
  | [] => (h, [])
  | o :: rest =>
      let (h1, e) := run_op h o in
      let (h2, es) := run_ops h1 rest in
      (h2, e :: es)
  end.

(** The slices of the [Write] calls of a sequence, as [Call] records
    them. *)
Definition written (os : list op) : list (list (option Slice)) :=
  flat_map (fun o => match o with OpWrite in_ => [[Some in_]] | _ => [] end) os.

End Hash.

Arguments OpMarshalBinary {Slice}.

End FakeHash.

(** The fake receiver after [k] calls of [Recv]. *)
Fixpoint receiver_after (k : nat) (r : fake.Receiver) : fake.Receiver :=
  match k with
  | O => r
  | Datatypes.S k' => receiver_after k' (fst (fake.Recv r context_Background))
  end.

(** The counter values of the loop of [Stream]: [m] values from [i] on. *)
Fixpoint counter_values (i : Z) (m : nat) : list Z :=
  match m with
  | O => []
  | Datatypes.S m' => i :: counter_values (int64_incr i) m'
  end.

(** The hashes for which the consensus engine was asked a chain. *)
Definition chains_asked (tr : list Event) : list bytes :=
  flat_map (fun ev => match ev with EvGetChain hsh => [hsh] | _ => [] end) tr.

(** ** Basic facts *)

Lemma bytes_Equal_true (a b : bytes) : bytes_Equal a b = true <-> a = b.
Proof.
  revert b; induction a as [|x a IH]; intros [|y b]; simpl;
    try (split; [discriminate | congruence]); try tauto.
  rewrite andb_true_iff, IH. split.
  - intros [Hxy ->]. apply Byte.byte_dec_bl in Hxy. now subst.
  - intros E. injection E as -> ->. split; [now apply Byte.byte_dec_lb|reflexivity].
Qed.

Lemma bytes_Equal_false (a b : bytes) : bytes_Equal a b = false <-> a <> b.
Proof.
  rewrite <- bytes_Equal_true. destruct (bytes_Equal a b); split; congruence.
Qed.

Lemma bytes_Equal_refl (a : bytes) : bytes_Equal a a = true.
Proof. now apply bytes_Equal_true. Qed.

Lemma sends_app (t1 t2 : list Event) : sends (t1 ++ t2) = sends t1 ++ sends t2.
Proof. unfold sends. apply flat_map_app. Qed.

Lemma delivered_app (t1 t2 : list Event) :
  delivered (t1 ++ t2) = delivered t1 ++ delivered t2.
Proof. unfold delivered. rewrite sends_app. apply flat_map_app. Qed.

Lemma skipn_nth_error {A : Type} (l : list A) (n : nat) (x : A) :
  nth_error l n = Some x -> skipn n l = x :: skipn (Datatypes.S n) l.
Proof.
  revert l. induction n as [|n IH]; intros [|y l]; simpl; try discriminate.
  - now intros [= ->].
  - apply IH.
Qed.

Lemma reads_app (t1 t2 : list Event) : reads (t1 ++ t2) = reads t1 ++ reads t2.
Proof. unfold reads. apply flat_map_app. Qed.

Lemma contexts_app (t1 t2 : list Event) :
  contexts (t1 ++ t2) = contexts t1 ++ contexts t2.
Proof. unfold contexts. apply flat_map_app. Qed.

Lemma Read_Ok_nth (d : Database) (i : Z) (b : SkipBlock) :
  Store.Read d i = Ok b <-> 0 <= i /\ nth_error d (Z.to_nat i) = Some b.
Proof.
  unfold Store.Read. destruct (Z.ltb_spec i 0) as [Hlt|Hge].
  - split; [discriminate | lia].
  - destruct (nth_error d (Z.to_nat i)) as [b'|]; split.
    + intros [= ->]. now split.
    + intros [_ [= ->]]. reflexivity.
    + discriminate.
    + intros [_ E]. discriminate.
Qed.

Lemma Read_of_nat (d : Database) (n : nat) :
  Store.Read d (Z.of_nat n) =
  match nth_error d n with Some b => Ok b | None => Err Store.NotFoundError end.
Proof.
  unfold Store.Read. destruct (Z.ltb_spec (Z.of_nat n) 0); [lia|].
  now rewrite Nat2Z.id.
Qed.

Lemma Read_Ok_In (d : Database) (i : Z) (b : SkipBlock) :
  Store.Read d i = Ok b -> In b d.
Proof. intros H. apply Read_Ok_nth in H as [_ H]. eapply nth_error_In; eauto. Qed.

Lemma int64_incr_small (i : Z) :
  0 <= i -> i + 1 < 2 ^ 63 -> int64_incr i = i + 1.
Proof.
  intros H0 H1. unfold int64_incr, int64_wrap.
  rewrite Z.mod_small; lia.
Qed.

Lemma int64_incr_range (i : Z) : - 2 ^ 63 <= int64_incr i < 2 ^ 63.
Proof.
  unfold int64_incr, int64_wrap.
  pose proof (Z.mod_pos_bound (i + 1 + 2 ^ 63) (2 ^ 64) ltac:(lia)). lia.
Qed.

Lemma int64_incr_cases (i : Z) :
  0 <= i < 2 ^ 63 -> int64_incr i = i + 1 \/ int64_incr i < 0.
Proof.
  intros [H0 H1]. destruct (Z.lt_ge_cases (i + 1) (2 ^ 63)) as [Hs|Hb].
  - left. now apply int64_incr_small.
  - right. assert (E : i = 2 ^ 63 - 1) by lia. subst i. reflexivity.
Qed.

(** A successful read leaves strictly fewer blocks to read. *)
Lemma remaining_decreases (d : Database) (i : Z) (b : SkipBlock) :
  i < 2 ^ 63 ->
  Store.Read d i = Ok b ->
  (remaining d (int64_incr i) < remaining d i)%nat.
Proof.
  intros Hi H. apply Read_Ok_nth in H as [H0 Hn].
  assert (Hlt : (Z.to_nat i < List.length d)%nat).
  { apply nth_error_Some. congruence. }
  unfold remaining. destruct (Z.ltb_spec i 0); [lia|].
  destruct (@int64_incr_cases i (conj H0 Hi)) as [E|Hneg].
  - rewrite E. destruct (Z.ltb_spec (i + 1) 0); [lia|].
    rewrite Z2Nat.inj_add by lia. simpl. lia.
  - destruct (Z.ltb_spec (int64_incr i) 0); lia.
Qed.

(** ** One iteration of the loop *)

Section StreamBody.

Context {S : Type} {SS : Sender S}.

Variable h : handler.
Variable addr : Address.

Ltac run_body :=
  unfold Stream_body, bind, call, send, ret; simpl.

(** The read fails: the iteration stops there. *)
Lemma Stream_body_read_fails (i : Z) (s : S) (e : Error) :
  Store.Read (db (ops h)) i = Err e ->
  Stream_body h addr i s =
  (s, [EvRead i],
   Err (Errorf ("couldn't read block at index " ++ fmt_d i ++ ": ")%string e)).
Proof. intros H. run_body. now rewrite H. Qed.

(** An iteration that succeeds has read block [i], built its response and
    sent it, once and successfully. *)
Lemma Stream_body_Ok (i : Z) (s s' : S) (t : list Event) (b : SkipBlock) :
  Stream_body h addr i s = (s', t, Ok b) ->
  Store.Read (db (ops h)) i = Ok b /\
  reads t = [i] /\
  exists resp,
    response_for (ops h) b resp /\
    Send s resp [addr] = (s', None) /\
    sends t = [(resp, addr, None)].
Proof.
  run_body.
  destruct (Store.Read (db (ops h)) i) as [blk|e] eqn:Hr; [|discriminate].
  destruct (encoder_Pack (ops h) blk) as [bp|e] eqn:Hp; [|discriminate].
  unfold response_for.
  destruct (0 <? GetIndex blk) eqn:Hidx; simpl.
  - destruct (consensus_GetChain (ops h) (GetHash blk)) as [c|e] eqn:Hc;
      [|discriminate]; simpl.
    destruct (encoder_PackAny (ops h) c) as [a|e] eqn:Ha; [|discriminate]; simpl.
    destruct (Send s {| Block := bp; Chain_ := Some a |} [addr]) as [s1 [e|]] eqn:Hs;
      [discriminate|].
    intros [= <- <- <-]. split; [reflexivity|]. split; [reflexivity|].
    exists {| Block := bp; Chain_ := Some a |}. simpl. rewrite Hidx.
    repeat split; eauto.
  - destruct (Send s {| Block := bp; Chain_ := None |} [addr]) as [s1 [e|]] eqn:Hs;
      [discriminate|].
    intros [= <- <- <-]. split; [reflexivity|]. split; [reflexivity|].
    exists {| Block := bp; Chain_ := None |}. simpl. rewrite Hidx.
    repeat split; eauto.
Qed.


(** An iteration that fails either made no send at all, or failed on its
    send, which is then the last call it made and the cause of the error
    it returns. *)
Lemma Stream_body_Err (i : Z) (s s' : S) (t : list Event) (e : Error) :
  Stream_body h addr i s = (s', t, Err e) ->
  (sends t = [] /\ Forall (fun ev => ~ failed_send ev) t) \/
  (exists t0 resp e0,
      t = t0 ++ [EvSend resp addr (Some e0)] /\
      Forall (fun ev => ~ failed_send ev) t0 /\
      sends t0 = [] /\
      e = Errorf "couldn't send block: " e0).
Proof.
  run_body.
  destruct (Store.Read (db (ops h)) i) as [blk|e1].
  2:{ intros [= <- <- <-]. left. split; [reflexivity|].
      repeat constructor; simpl; tauto. }
  destruct (encoder_Pack (ops h) blk) as [bp|e1].
  2:{ intros [= <- <- <-]. left. split; [reflexivity|].
      repeat constructor; simpl; tauto. }
  destruct (0 <? GetIndex blk); simpl.
  - destruct (consensus_GetChain (ops h) (GetHash blk)) as [c|e1]; simpl.
    2:{ intros [= <- <- <-]. left. split; [reflexivity|].
        repeat constructor; simpl; tauto. }
    destruct (encoder_PackAny (ops h) c) as [a|e1]; simpl.
    2:{ intros [= <- <- <-]. left. split; [reflexivity|].
        repeat constructor; simpl; tauto. }
    destruct (Send s {| Block := bp; Chain_ := Some a |} [addr]) as [s1 [e1|]];
      [|discriminate].
    intros [= <- <- <-]. right.
    exists [EvRead i; EvPack blk; EvGetChain (GetHash blk); EvPackAny c],
      {| Block := bp; Chain_ := Some a |}, e1.
    repeat split. repeat constructor; simpl; tauto.
  - destruct (Send s {| Block := bp; Chain_ := None |} [addr]) as [s1 [e1|]];
      [|discriminate].
    intros [= <- <- <-]. right.
    exists [EvRead i; EvPack blk], {| Block := bp; Chain_ := None |}, e1.
    repeat split. repeat constructor; simpl; tauto.
Qed.

(** An iteration never waits on a context. *)
Lemma Stream_body_contexts (i : Z) (s : S) :
  contexts (snd (fst (Stream_body h addr i s))) = [].
Proof.
  run_body.
  destruct (Store.Read (db (ops h)) i) as [blk|e1]; [|reflexivity].
  destruct (encoder_Pack (ops h) blk) as [bp|e1]; [|reflexivity].
  destruct (0 <? GetIndex blk); simpl.
  - destruct (consensus_GetChain (ops h) (GetHash blk)) as [c|e1]; [|reflexivity].
    simpl. destruct (encoder_PackAny (ops h) c) as [a|e1]; [|reflexivity].
    simpl. now destruct (Send s {| Block := bp; Chain_ := Some a |} [addr]) as [s1 [e1|]].
  - now destruct (Send s {| Block := bp; Chain_ := None |} [addr]) as [s1 [e1|]].
Qed.

(** With a block to read and collaborators that succeed on it, the
    iteration succeeds and sends the block's response. *)
Lemma Stream_body_succeeds (good : S -> Prop) (i : Z) (s : S) (b : SkipBlock) :
  Store.Read (db (ops h)) i = Ok b ->
  (exists p, encoder_Pack (ops h) b = Ok p) ->
  (0 < GetIndex b ->
   exists c a, consensus_GetChain (ops h) (GetHash b) = Ok c /\
               encoder_PackAny (ops h) c = Ok a) ->
  reliable good ->
  good s ->
  exists s' t resp,
    Stream_body h addr i s = (s', t, Ok b) /\
    good s' /\
    response_for (ops h) b resp /\
    reads t = [i] /\
    sends t = [(resp, addr, None)].
Proof.
  intros Hr [p Hp] Hc Hrel Hgood. run_body. rewrite Hr, Hp. unfold response_for.
  destruct (0 <? GetIndex b) eqn:Hidx; simpl.
  - destruct Hc as (c & a & Hc & Ha); [now apply Z.ltb_lt|].
    rewrite Hc; simpl. rewrite Ha; simpl.
    destruct (Hrel s {| Block := p; Chain_ := Some a |} [addr] Hgood) as [Hs Hg].
    destruct (Send s {| Block := p; Chain_ := Some a |} [addr]) as [s1 e1].
    simpl in Hs, Hg. subst e1.
    exists s1, [EvRead i; EvPack b; EvGetChain (GetHash b); EvPackAny c;
                EvSend {| Block := p; Chain_ := Some a |} addr None],
      {| Block := p; Chain_ := Some a |}.
    simpl. repeat split; eauto.
  - destruct (Hrel s {| Block := p; Chain_ := None |} [addr] Hgood) as [Hs Hg].
    destruct (Send s {| Block := p; Chain_ := None |} [addr]) as [s1 e1].
    simpl in Hs, Hg. subst e1.
    exists s1, [EvRead i; EvPack b; EvSend {| Block := p; Chain_ := None |} addr None],
      {| Block := p; Chain_ := None |}.
    simpl. repeat split; eauto.
Qed.

End StreamBody.

(** ** The loop *)



Section StreamLoop.

Context {S : Type} {SS : Sender S}.

Variable h : handler.
Variable addr : Address.
Variable to : bytes.

(** The loop's guard holds: it ends at once, whatever the fuel. *)
Lemma Stream_loop_stop (fuel : nat) (block : SkipBlock) (i : Z) (s : S) :
  bytes_Equal (hash block) to = true ->
  Stream_loop h addr to fuel block i s = Some (s, [], None).
Proof. intros E. destruct fuel; simpl; now rewrite E. Qed.

(** The loop's guard fails: one iteration, then the loop again. *)
Lemma Stream_loop_step (fuel : nat) (block : SkipBlock) (i : Z) (s : S) :
  bytes_Equal (hash block) to = false ->
  Stream_loop h addr to (Datatypes.S fuel) block i s =
  match Stream_body h addr i s with
  | (s1, t1, Err e) => Some (s1, t1, Some e)
  | (s1, t1, Ok block') =>
      match Stream_loop h addr to fuel block' (int64_incr i) s1 with
      | Some (s2, t2, r) => Some (s2, t1 ++ t2, r)
      | None => None
      end
  end.
Proof. intros E. simpl. now rewrite E. Qed.

(** The loop returns: the counter stays an [int64], every successful read
    leaves fewer blocks to read, and a read past the end fails. *)
Lemma Stream_loop_returns (fuel : nat) :
  forall (block : SkipBlock) (i : Z) (s : S),
    - 2 ^ 63 <= i < 2 ^ 63 ->
    (remaining (db (ops h)) i < fuel)%nat ->
    exists r, Stream_loop h addr to fuel block i s = Some r.
Proof.
  induction fuel as [|fuel IH]; intros block i s Hi Hfuel; [lia|].
  simpl. destruct (bytes_Equal (hash block) to); [eauto|].
  destruct (Stream_body h addr i s) as [[s1 t1] [b'|e]] eqn:Hb; [|eauto].
  apply Stream_body_Ok in Hb as (Hr & _).
  pose proof (@remaining_decreases _ _ _ (proj2 Hi) Hr) as Hdec.
  destruct (IH b' (int64_incr i) s1 (int64_incr_range i) ltac:(lia))
    as ([[s2 t2] r] & ->).
  eauto.
Qed.

(** When the loop ends without error, either its guard held at entry and
    nothing was done, or the last thing it did was to send, with success,
    the response of a stored block whose hash is the target. *)
Lemma Stream_loop_nil (fuel : nat) :
  forall (block : SkipBlock) (i : Z) (s s' : S) (t : list Event),
    Stream_loop h addr to fuel block i s = Some (s', t, None) ->
    (hash block = to /\ t = []) \/
    (exists b resp rs,
        In b (db (ops h)) /\ hash b = to /\
        response_for (ops h) b resp /\
        sends t = rs ++ [(resp, addr, None)]).
Proof.
  induction fuel as [|fuel IH]; intros block i s s' t; simpl.
  - destruct (bytes_Equal (hash block) to) eqn:E; [|discriminate].
    intros [= <- <-]. left. split; [now apply bytes_Equal_true|reflexivity].
  - destruct (bytes_Equal (hash block) to) eqn:E.
    { intros [= <- <-]. left. split; [now apply bytes_Equal_true|reflexivity]. }
    destruct (Stream_body h addr i s) as [[s1 t1] [b'|e]] eqn:Hb; [|discriminate].
    destruct (Stream_loop h addr to fuel b' (int64_incr i) s1)
      as [[[s2 t2] r]|] eqn:Hl; [|discriminate].
    intros [= <- <- ->]. right.
    apply Stream_body_Ok in Hb as (Hr & _ & resp & Hresp & _ & Hsends).
    destruct (IH _ _ _ _ _ Hl) as [[Hto ->]|(b & resp' & rs & Hin & Hto & Hresp' & Hs)].
    + exists b', resp, []. rewrite app_nil_r, Hsends.
      split; [eauto using Read_Ok_In|]. now repeat (split; [assumption|]).
    + exists b, resp', ((resp, addr, None) :: rs).
      rewrite sends_app, Hsends, Hs. now repeat (split; [assumption|]).
Qed.


(** The loop never waits on a context. *)
Lemma Stream_loop_contexts (fuel : nat) :
  forall (block : SkipBlock) (i : Z) (s s' : S) (t : list Event) (r : option Error),
    Stream_loop h addr to fuel block i s = Some (s', t, r) ->
    contexts t = [].
Proof.
  induction fuel as [|fuel IH]; intros block i s s' t r; simpl.
  - destruct (bytes_Equal (hash block) to); [|discriminate]. now intros [= <- <- <-].
  - destruct (bytes_Equal (hash block) to); [now intros [= <- <- <-]|].
    pose proof (Stream_body_contexts h addr i s) as Hc.
    destruct (Stream_body h addr i s) as [[s1 t1] [b'|e1]]; simpl in Hc.
    + destruct (Stream_loop h addr to fuel b' (int64_incr i) s1)
        as [[[s2 t2] r2]|] eqn:Hl; [|discriminate].
      intros [= <- <- <-]. rewrite contexts_app, Hc. simpl. eauto.
    + now intros [= <- <- <-].
Qed.

End StreamLoop.

Lemma nth_error_middle {A : Type} (pre post : list A) (x : A) :
  nth_error (pre ++ x :: post) (List.length pre) = Some x.
Proof. rewrite nth_error_app2, Nat.sub_diag by lia. reflexivity. Qed.

Lemma Forall2_nth_error {A B : Type} (P : A -> B -> Prop) (l : list A) (l' : list B) :
  Forall2 P l l' ->
  forall (i : nat) (a : A) (b : B),
    nth_error l i = Some a -> nth_error l' i = Some b -> P a b.
Proof.
  induction 1 as [|x y l l' Hxy _ IH]; intros [|i] a b; simpl; try discriminate.
  - now intros [= <-] [= <-].
  - apply IH.
Qed.

Section CatchUp.

Context {S : Type} {SS : Sender S}.

Variable h : handler.
Variable addr : Address.
Variable to : bytes.

(** With healthy collaborators, the loop started at the position after
    [pre] walks the blocks [mid] that do not match the target, then the
    block [target] that does, sends the response of each in order, and
    ends without error. *)
Lemma Stream_loop_catch_up (good : S -> Prop) (mid : list SkipBlock) :
  forall (pre post : list SkipBlock) (target block : SkipBlock) (s : S) (fuel : nat),
    db (ops h) = pre ++ mid ++ target :: post ->
    Z.of_nat (List.length (db (ops h))) <= 2 ^ 63 ->
    hash block <> to ->
    (forall b, In b mid -> hash b <> to) ->
    hash target = to ->
    (forall b, In b (mid ++ [target]) -> exists p, encoder_Pack (ops h) b = Ok p) ->
    (forall b, In b (mid ++ [target]) -> 0 < GetIndex b ->
               exists c a, consensus_GetChain (ops h) (GetHash b) = Ok c /\
                           encoder_PackAny (ops h) c = Ok a) ->
    reliable good ->
    good s ->
    (List.length mid < fuel)%nat ->
    exists s' t resps,
      Stream_loop h addr to fuel block (Z.of_nat (List.length pre)) s
      = Some (s', t, None) /\
      Forall2 (response_for (ops h)) (mid ++ [target]) resps /\
      sends t = map (fun r => (r, addr, None)) resps /\
      reads t = map Z.of_nat (seq (List.length pre) (Datatypes.S (List.length mid))).
Proof.
  induction mid as [|m mid IH];
    intros pre post target block s fuel Hdb Hlen Hblock Hmid Htarget Hpack Hchain
           Hrel Hgood Hfuel;
    (destruct fuel as [|fuel]; [simpl in Hfuel; lia|]);
    apply bytes_Equal_false in Hblock; rewrite Stream_loop_step by exact Hblock.
  - assert (Hr : Store.Read (db (ops h)) (Z.of_nat (List.length pre)) = Ok target).
    { rewrite Read_of_nat, Hdb. simpl. now rewrite nth_error_middle. }
    destruct (@Stream_body_succeeds _ _ h addr good _ s _ Hr)
      as (s1 & t1 & resp & Hb & Hg1 & Hresp & Hreads & Hs);
      [apply Hpack; simpl; tauto | apply Hchain; simpl; tauto
      | assumption | assumption |].
    rewrite Hb, Stream_loop_stop by (subst to; apply bytes_Equal_refl).
    exists s1, (t1 ++ []), [resp]. rewrite app_nil_r.
    split; [reflexivity|].
    split; [simpl; constructor; [assumption|constructor]|]. now split.
  - assert (Hr : Store.Read (db (ops h)) (Z.of_nat (List.length pre)) = Ok m).
    { rewrite Read_of_nat, Hdb. simpl. now rewrite nth_error_middle. }
    destruct (@Stream_body_succeeds _ _ h addr good _ s _ Hr)
      as (s1 & t1 & resp & Hb & Hg1 & Hresp & Hreads & Hs);
      [apply Hpack; simpl; tauto | apply Hchain; simpl; tauto
      | assumption | assumption |].
    rewrite Hb.
    assert (Hnext : int64_incr (Z.of_nat (List.length pre))
                    = Z.of_nat (List.length (pre ++ [m]))).
    { rewrite length_app. simpl. rewrite Nat2Z.inj_add. simpl.
      apply int64_incr_small; [lia|].
      rewrite Hdb in Hlen. simpl in Hlen.
      repeat (rewrite ?length_app in Hlen; simpl in Hlen). lia. }
    rewrite Hnext.
    destruct (IH (pre ++ [m]) post target m s1 fuel)
      as (s2 & t2 & resps & Hl & HF & Hs2 & Hr2).
    + rewrite Hdb, <- app_assoc. reflexivity.
    + assumption.
    + apply Hmid. simpl; tauto.
    + intros b Hb'. apply Hmid. simpl; tauto.
    + assumption.
    + intros b Hb'. apply Hpack. simpl; tauto.
    + intros b Hb'. apply Hchain. simpl; tauto.
    + assumption.
    + assumption.
    + simpl in Hfuel. lia.
    + rewrite Hl. exists s2, (t1 ++ t2), (resp :: resps).
      split; [reflexivity|]. split; [now constructor|].
      rewrite sends_app, reads_app, Hs, Hs2, Hreads, Hr2.
      split; [reflexivity|].
      rewrite length_app. simpl. rewrite Nat.add_1_r. reflexivity.
Qed.

End CatchUp.

Section LoopEnd.

Context {S : Type} {SS : Sender S}.

Variable h : handler.
Variable addr : Address.
Variable to : bytes.

(** An iteration that fails ends on the call that failed. *)
Lemma Stream_body_Err_last (i : Z) (s s' : S) (t : list Event) (e : Error) :
  Stream_body h addr i s = (s', t, Err e) ->
  exists t0 ev, t = t0 ++ [ev] /\ failed_call (ops h) ev.
Proof.
  unfold Stream_body, bind, call, send, ret; simpl.
  destruct (Store.Read (db (ops h)) i) as [blk|e1] eqn:Hr.
  2:{ intros [= <- <- <-]. exists [], (EvRead i). simpl. eauto. }
  destruct (encoder_Pack (ops h) blk) as [bp|e1] eqn:Hp.
  2:{ intros [= <- <- <-]. exists [EvRead i], (EvPack blk). simpl. eauto. }
  destruct (0 <? GetIndex blk); simpl.
  - destruct (consensus_GetChain (ops h) (GetHash blk)) as [c|e1] eqn:Hc; simpl.
    2:{ intros [= <- <- <-].
        exists [EvRead i; EvPack blk], (EvGetChain (GetHash blk)). simpl. eauto. }
    destruct (encoder_PackAny (ops h) c) as [a|e1] eqn:Ha; simpl.
    2:{ intros [= <- <- <-].
        exists [EvRead i; EvPack blk; EvGetChain (GetHash blk)], (EvPackAny c).
        simpl. eauto. }
    destruct (Send s {| Block := bp; Chain_ := Some a |} [addr]) as [s1 [e1|]];
      [|discriminate].
    intros [= <- <- <-].
    exists [EvRead i; EvPack blk; EvGetChain (GetHash blk); EvPackAny c],
      (EvSend {| Block := bp; Chain_ := Some a |} addr (Some e1)).
    now split.
  - destruct (Send s {| Block := bp; Chain_ := None |} [addr]) as [s1 [e1|]];
      [|discriminate].
    intros [= <- <- <-].
    exists [EvRead i; EvPack blk],
      (EvSend {| Block := bp; Chain_ := None |} addr (Some e1)).
    now split.
Qed.

(** When the loop ends with an error, the last call it made failed. *)
Lemma Stream_loop_error (fuel : nat) :
  forall (block : SkipBlock) (i : Z) (s s' : S) (t : list Event) (e : Error),
    Stream_loop h addr to fuel block i s = Some (s', t, Some e) ->
    exists t0 ev, t = t0 ++ [ev] /\ failed_call (ops h) ev.
Proof.
  induction fuel as [|fuel IH]; intros block i s s' t e; simpl.
  - destruct (bytes_Equal (hash block) to); discriminate.
  - destruct (bytes_Equal (hash block) to); [discriminate|].
    destruct (Stream_body h addr i s) as [[s1 t1] [b'|e1]] eqn:Hb.
    + destruct (Stream_loop h addr to fuel b' (int64_incr i) s1)
        as [[[s2 t2] r2]|] eqn:Hl; [|discriminate].
      intros [= <- <- ->].
      destruct (IH _ _ _ _ _ _ Hl) as (t0 & ev & -> & Hev).
      exists (t1 ++ t0), ev. now rewrite app_assoc.
    + intros [= <- <- <-]. eapply Stream_body_Err_last; eauto.
Qed.

(** The responses the loop delivers are those of the stored blocks from
    its counter on, in order, with no gap. *)
Lemma Stream_loop_delivered (fuel : nat) :
  forall (block : SkipBlock) (i : Z) (s s' : S) (t : list Event) (r : option Error),
    i < 2 ^ 63 ->
    Stream_loop h addr to fuel block i s = Some (s', t, r) ->
    exists k resps,
      Forall2 (response_for (ops h)) (firstn k (store_from (db (ops h)) i)) resps /\
      delivered t = map (fun x => (x, addr)) resps.
Proof.
  induction fuel as [|fuel IH]; intros block i s s' t r Hi; simpl.
  - destruct (bytes_Equal (hash block) to); [|discriminate].
    intros [= <- <- <-]. exists 0%nat, []. split; [constructor|reflexivity].
  - destruct (bytes_Equal (hash block) to).
    { intros [= <- <- <-]. exists 0%nat, []. split; [constructor|reflexivity]. }
    destruct (Stream_body h addr i s) as [[s1 t1] [b'|e1]] eqn:Hb.
    + destruct (Stream_loop h addr to fuel b' (int64_incr i) s1)
        as [[[s2 t2] r2]|] eqn:Hl; [|discriminate].
      intros [= <- <- <-].
      apply Stream_body_Ok in Hb as (Hr & _ & resp & Hresp & _ & Hs).
      destruct (IH _ _ _ _ _ _ (proj2 (int64_incr_range i)) Hl)
        as (k & resps & HF & Hd).
      apply Read_Ok_nth in Hr as [H0 Hn].
      assert (Hfrom : store_from (db (ops h)) i
                      = b' :: skipn (Datatypes.S (Z.to_nat i)) (db (ops h))).
      { unfold store_from. destruct (Z.ltb_spec i 0); [lia|].
        now apply skipn_nth_error. }
      rewrite delivered_app, Hd. unfold delivered at 1. rewrite Hs. simpl.
      destruct (@int64_incr_cases i (conj H0 Hi)) as [E|Hneg].
      * exists (Datatypes.S k), (resp :: resps). rewrite Hfrom. simpl.
        split; [|reflexivity]. constructor; [assumption|].
        rewrite E in HF. unfold store_from in HF.
        destruct (Z.ltb_spec (i + 1) 0); [lia|].
        replace (Z.to_nat (i + 1)) with (Datatypes.S (Z.to_nat i)) in HF by lia.
        exact HF.
      * unfold store_from in HF. destruct (Z.ltb_spec (int64_incr i) 0); [|lia].
        rewrite firstn_nil in HF. inversion HF; subst.
        exists 1%nat, [resp]. rewrite Hfrom. simpl.
        split; [|reflexivity]. constructor; [assumption|constructor].
    + intros [= <- <- <-]. exists 0%nat, []. split; [constructor|].
      unfold delivered.
      apply Stream_body_Err in Hb as [[-> _]|(t0 & resp0 & e0 & -> & _ & Hs0 & _)];
        [reflexivity|].
      rewrite sends_app, Hs0. reflexivity.
Qed.

End LoopEnd.

(** ** The sender after a run *)

Section StreamSender.

Context {R S : Type} {RR : Receiver R} {SS : Sender S}.

Variable h : handler.

(** Handing over in two parts is handing over the whole. *)
Lemma handed_app (s : S) (l1 l2 : list (BlockResponse * Address)) :
  handed (handed s l1) l2 = handed s (l1 ++ l2).
Proof. unfold handed. now rewrite fold_left_app. Qed.

(** An iteration touches the sender through its one call of [Send] and
    in no other way. *)
Lemma Stream_body_handed (addr : Address) (i : Z) (s : S) :
  fst (fst (Stream_body h addr i s))
  = handed s (map fst (sends (snd (fst (Stream_body h addr i s))))).
Proof.
  unfold Stream_body, bind, call, send, ret; simpl.
  destruct (Store.Read (db (ops h)) i) as [blk|e1]; [|reflexivity].
  destruct (encoder_Pack (ops h) blk) as [bp|e1]; [|reflexivity].
  destruct (0 <? GetIndex blk); simpl.
  - destruct (consensus_GetChain (ops h) (GetHash blk)) as [c|e1]; [|reflexivity].
    destruct (encoder_PackAny (ops h) c) as [a|e1]; [|reflexivity]. simpl.
    destruct (Send s {| Block := bp; Chain_ := Some a |} [addr]) as [s1 [e|]] eqn:E;
      simpl; unfold handed; simpl; now rewrite E.
  - destruct (Send s {| Block := bp; Chain_ := None |} [addr]) as [s1 [e|]] eqn:E;
      simpl; unfold handed; simpl; now rewrite E.
Qed.

(** The sender after the loop is the sender it started with, handed the
    responses of the trace's sends, in order. *)
Lemma Stream_loop_handed (addr : Address) (to : bytes) (fuel : nat) :
  forall (block : SkipBlock) (i : Z) (s s' : S) (t : list Event) (r : option Error),
    Stream_loop h addr to fuel block i s = Some (s', t, r) ->
    s' = handed s (map fst (sends t)).
Proof.
  induction fuel as [|fuel IH]; intros block i s s' t r; simpl.
  - destruct (bytes_Equal (hash block) to); [|discriminate].
    now intros [= <- <- <-].
  - destruct (bytes_Equal (hash block) to); [now intros [= <- <- <-]|].
    pose proof (Stream_body_handed addr i s) as Hb.
    destruct (Stream_body h addr i s) as [[s1 t1] [blk|e]]; simpl in Hb.
    + destruct (Stream_loop h addr to fuel blk (int64_incr i) s1)
        as [[[s2 t2] r2]|] eqn:Hl; [|discriminate].
      intros [= <- <- <-]. apply IH in Hl.
      now rewrite sends_app, map_app, <- handed_app, <- Hb.
    + intros [= <- <- <-]. now rewrite Hb.
Qed.

(** [Stream] is [Stream_run] without the sender. *)
Lemma Stream_eq (out : S) (in_ : R) :
  Stream h out in_ =
  match Recv in_ context_Background with
  | (_, (addr, msg, err)) =>
      let t0 := [EvRecv context_Background] in
      match err with
      | Some e => Some (Some (Errorf "couldn't receive message: " e), t0)
      | None =>
          match msg with
          | Msg_BlockRequest req =>
              match Stream_loop h addr (To req)
                      (Datatypes.S (List.length (db (ops h)))) zero_SkipBlock 0 out with
              | Some (_, t1, r) => Some (r, t0 ++ t1)
              | None => None
              end
          | _ =>
              Some (Some ("invalid message type '" ++ fmt_T msg
                            ++ "' != '*skipchain.BlockRequest'")%string, t0)
          end
      end
  end.
Proof.
  unfold Stream, Stream_run.
  destruct (Recv in_ context_Background) as [in' [[addr msg] [e|]]]; [reflexivity|].
  destruct msg as [|m|req|m|t]; try reflexivity.
  now destruct (Stream_loop h addr (To req) (Datatypes.S (List.length (db (ops h))))
                  zero_SkipBlock 0 out) as [[[s t1] r]|].
Qed.

(** The run after a well-formed first message, with the sender. *)
Lemma Stream_run_request (out : S) (in_ in' : R) (addr : Address) (req : BlockRequest) :
  Recv in_ context_Background = (in', (addr, Msg_BlockRequest req, None)) ->
  Stream_run h out in_ =
  match Stream_loop h addr (To req)
          (Datatypes.S (List.length (db (ops h)))) zero_SkipBlock 0 out with
  | Some (s, t1, r) => Some (s, r, EvRecv context_Background :: t1)
  | None => None
  end.
Proof. intros H. unfold Stream_run. rewrite H. reflexivity. Qed.

(** In every run the sender is left as [out] handed the responses of the
    trace's sends, in order: [Stream] passes to [Send] what the trace
    shows and nothing else. *)
Lemma Stream_run_handed (out s : S) (in_ : R) (r : option Error) (tr : list Event) :
  Stream_run h out in_ = Some (s, r, tr) ->
  s = handed out (map fst (sends tr)).
Proof.
  unfold Stream_run.
  destruct (Recv in_ context_Background) as [in' [[addr msg] [e|]]];
    [now intros [= <- <- <-]|].
  destruct msg as [|m|req|m|t]; try now intros [= <- <- <-].
  destruct (Stream_loop h addr (To req) (Datatypes.S (List.length (db (ops h))))
              zero_SkipBlock 0 out) as [[[s1 t1] r1]|] eqn:Hl; [|discriminate].
  intros [= <- <- <-]. now apply Stream_loop_handed in Hl.
Qed.

End StreamSender.

(** ** Properties of [Stream] *)

Section StreamProperties.

Context {R S : Type} {RR : Receiver R} {SS : Sender S}.

Variable h : handler.

(** [Stream] returns: the fuel it gives its loop is never exhausted. *)
Lemma Stream_returns (out : S) (in_ : R) :
  exists r, Stream h out in_ = Some r.
Proof.
  rewrite Stream_eq.
  destruct (Recv in_ context_Background) as [in' [[addr msg] [e|]]]; [eauto|].
  destruct msg as [|m|req|m|t]; eauto.
  destruct (@Stream_loop_returns _ _ h addr (To req)
              (Datatypes.S (List.length (db (ops h)))) zero_SkipBlock 0 out)
    as ([[s' t] r] & ->); [lia | unfold remaining; simpl; lia | eauto].
Qed.

(** The run after a well-formed first message is the run of the loop. *)
Lemma Stream_request (out : S) (in_ in' : R) (addr : Address) (req : BlockRequest) :
  Recv in_ context_Background = (in', (addr, Msg_BlockRequest req, None)) ->
  Stream h out in_ =
  match Stream_loop h addr (To req)
          (Datatypes.S (List.length (db (ops h)))) zero_SkipBlock 0 out with
  | Some (_, t1, r) => Some (r, EvRecv context_Background :: t1)
  | None => None
  end.
Proof. intros H. rewrite Stream_eq. rewrite H. reflexivity. Qed.

(** C4: when the first receive returns an error, or returns a message of
    any type other than [BlockRequest], [Stream] returns an error and has
    read no block and sent no response. *)
Theorem Stream_rejects_first_message
    (out : S) (in_ in' : R) (addr : Address) (msg : Message) (err : option Error) :
  Recv in_ context_Background = (in', (addr, msg, err)) ->
  err <> None \/ (forall req, msg <> Msg_BlockRequest req) ->
  exists e tr,
    Stream h out in_ = Some (Some e, tr) /\
    sends tr = [] /\ reads tr = [].
Proof.
  intros Hrecv Hbad. rewrite Stream_eq. rewrite Hrecv.
  destruct err as [e|].
  - exists (Errorf "couldn't receive message: " e), [EvRecv context_Background].
    now repeat split.
  - destruct Hbad as [Hbad|Hbad]; [congruence|].
    destruct msg as [|m|req|m|t]; try (eexists; eexists; now repeat split).
    now destruct (Hbad req).
Qed.

(** C9: when the first message is a [BlockRequest] whose [To] is the
    all-zero digest, [Stream] returns [nil] at once: the only call it has
    made is the receive, so no block was read and no response sent. *)
Theorem Stream_zero_target (out : S) (in_ in' : R) (addr : Address) :
  Recv in_ context_Background
  = (in', (addr, Msg_BlockRequest {| To := zero_Digest |}, None)) ->
  Stream h out in_ = Some (None, [EvRecv context_Background]) /\
  reads [EvRecv context_Background] = [] /\
  sends [EvRecv context_Background] = [].
Proof.
  intros Hrecv. rewrite (@Stream_request out _ _ _ _ Hrecv). simpl.
  now repeat split.
Qed.


(** A clean return means the target was reached: either nothing was done
    because the target is the zero digest, or the last response sent is
    that of a stored block whose hash is the target. *)
Lemma Stream_nil_means_target
    (out : S) (in_ in' : R) (addr : Address) (req : BlockRequest) (tr : list Event) :
  Recv in_ context_Background = (in', (addr, Msg_BlockRequest req, None)) ->
  Stream h out in_ = Some (None, tr) ->
  (To req = zero_Digest /\ sends tr = [] /\ reads tr = []) \/
  (exists b resp rs,
      In b (db (ops h)) /\ hash b = To req /\
      response_for (ops h) b resp /\
      sends tr = rs ++ [(resp, addr, None)]).
Proof.
  intros Hrecv. rewrite (@Stream_request out _ _ _ _ Hrecv).
  destruct (Stream_loop h addr (To req) (Datatypes.S (List.length (db (ops h))))
              zero_SkipBlock 0 out) as [[[s' t1] r1]|] eqn:Hl; [|discriminate].
  intros [= -> <-].
  apply Stream_loop_nil in Hl as [[Hto ->]|(b & resp & rs & Hin & Hto & Hresp & Hs)].
  - left. now repeat split.
  - right. exists b, resp, rs. now repeat (split; [assumption|]).
Qed.

(** C2 (as amended): after a [BlockRequest], when the target is neither
    the zero digest nor the hash of a stored block, [Stream] returns an
    error, having delivered the responses of the first [k] blocks of the
    store, in order, for some [k]; and whatever the target, a [nil] return
    means that the last response sent is that of a stored block whose
    hash is the target, or that the target is the zero digest and nothing
    was read or sent. *)
Theorem Stream_unknown_target
    (out : S) (in_ in' : R) (addr : Address) (req : BlockRequest) :
  Recv in_ context_Background = (in', (addr, Msg_BlockRequest req, None)) ->
  (To req <> zero_Digest ->
   (forall b, In b (db (ops h)) -> hash b <> To req) ->
   exists e tr k resps,
     Stream h out in_ = Some (Some e, tr) /\
     Forall2 (response_for (ops h)) (firstn k (db (ops h))) resps /\
     delivered tr = map (fun x => (x, addr)) resps) /\
  (forall tr,
      Stream h out in_ = Some (None, tr) ->
      (To req = zero_Digest /\ sends tr = [] /\ reads tr = []) \/
      (exists b resp rs,
          In b (db (ops h)) /\ hash b = To req /\
          response_for (ops h) b resp /\
          sends tr = rs ++ [(resp, addr, None)])).
Proof.
  intros Hrecv. split.
  - intros Hz Hnot. rewrite (@Stream_request out _ _ _ _ Hrecv).
    destruct (@Stream_loop_returns _ _ h addr (To req)
                (Datatypes.S (List.length (db (ops h)))) zero_SkipBlock 0 out)
      as ([[s' t] r] & Hl); [lia | unfold remaining; simpl; lia |].
    rewrite Hl. destruct r as [e|].
    + assert (H63 : 0 < 2 ^ 63) by lia.
      destruct (@Stream_loop_delivered _ _ h addr (To req) _ zero_SkipBlock 0
                  out s' t (Some e) H63 Hl) as (k & resps & HF & Hd).
      exists e, (EvRecv context_Background :: t), k, resps.
      split; [reflexivity|]. split; [exact HF | exact Hd].
    + apply Stream_loop_nil in Hl as [[Hto _]|(b & _ & _ & Hin & Hto & _)].
      * simpl in Hto. congruence.
      * now destruct (Hnot b Hin).
  - intros tr. exact (@Stream_nil_means_target out in_ in' addr req tr Hrecv).
Qed.

End StreamProperties.

Section StreamRuns.

Context {R S : Type} {RR : Receiver R} {SS : Sender S}.

Variable h : handler.

(** C1: over a valid store of six blocks with non-zero hashes, with an
    encoder, a consensus engine and a sender that do not fail, a request
    for the hash of block 5 makes [Stream] read blocks 0..5 in order and
    send six responses, the i-th built from block i; response 0 has no
    chain, responses 1..5 carry the packed chain the consensus engine
    returns for their block's hash; [Stream] then returns [nil].  The
    six responses are what the sender has been handed when [Stream]
    returns: [out] is left as it is after six calls of [Send], one per
    response, in order, each to the requester's address. *)
Theorem Stream_six_blocks
    (good : S -> Prop) (out : S) (in_ in' : R) (addr : Address) :
  List.length (db (ops h)) = 6%nat ->
  valid_store (db (ops h)) ->
  (forall b, In b (db (ops h)) -> hash b <> zero_Digest) ->
  (forall b, In b (db (ops h)) -> exists p, encoder_Pack (ops h) b = Ok p) ->
  (forall b, In b (db (ops h)) -> 0 < GetIndex b ->
             exists c a, consensus_GetChain (ops h) (GetHash b) = Ok c /\
                         encoder_PackAny (ops h) c = Ok a) ->
  reliable good -> good out ->
  Recv in_ context_Background
  = (in', (addr,
           Msg_BlockRequest {| To := hash (nth 5 (db (ops h)) zero_SkipBlock) |},
           None)) ->
  exists tr resps,
    Stream_run h out in_
    = Some (handed out (map (fun r => (r, addr)) resps), None, tr) /\
    reads tr = [0; 1; 2; 3; 4; 5] /\
    sends tr = map (fun r => (r, addr, None)) resps /\
    List.length resps = 6%nat /\
    forall i b r,
      nth_error (db (ops h)) i = Some b ->
      nth_error resps i = Some r ->
      encoder_Pack (ops h) b = Ok (Block r) /\
      (i = 0%nat -> Chain_ r = None) /\
      (i <> 0%nat ->
       exists c a, consensus_GetChain (ops h) (GetHash b) = Ok c /\
                   encoder_PackAny (ops h) c = Ok a /\
                   Chain_ r = Some a).
Proof.
  intros Hlen [Hidx Hnd] Hnz Hpack Hchain Hrel Hgood Hrecv.
  rewrite (@Stream_run_request _ _ _ _ h out _ _ _ _ Hrecv).
  destruct (db (ops h)) as [|b0 [|b1 [|b2 [|b3 [|b4 [|b5 [|b6 d]]]]]]] eqn:Hd;
    try discriminate.
  cbn [nth List.length To].
  assert (Hdiff : forall b, In b [b0; b1; b2; b3; b4] -> hash b <> hash b5).
  { intros b Hin Heq.
    pose proof (proj1 (NoDup_nth_error (map hash [b0; b1; b2; b3; b4; b5])) Hnd) as Hinj.
    simpl in Hin.
    destruct Hin as [<-|[<-|[<-|[<-|[<-|[]]]]]];
      [ specialize (Hinj 0%nat 5%nat) | specialize (Hinj 1%nat 5%nat)
      | specialize (Hinj 2%nat 5%nat) | specialize (Hinj 3%nat 5%nat)
      | specialize (Hinj 4%nat 5%nat) ];
      simpl in Hinj; rewrite Heq in Hinj;
      (assert (Hf : (5 = 5)%nat -> False); [|now apply Hf]);
      intros _; specialize (Hinj ltac:(lia) eq_refl); discriminate. }
  destruct (@Stream_loop_catch_up _ _ h addr (hash b5) good [b0; b1; b2; b3; b4]
              [] [] b5 zero_SkipBlock out 7%nat)
    as (s' & t & resps & Hl & HF & Hs & Hr).
  - exact Hd.
  - rewrite Hd. simpl. lia.
  - intros E. apply (Hnz b5); [simpl; tauto|]. now rewrite <- E.
  - exact Hdiff.
  - reflexivity.
  - intros b Hin. apply Hpack. simpl in Hin |- *. tauto.
  - intros b Hin. apply Hchain. simpl in Hin |- *. tauto.
  - exact Hrel.
  - exact Hgood.
  - simpl. lia.
  - change (Z.of_nat (List.length (@nil SkipBlock))) with 0 in Hl.
    rewrite Hl. exists (EvRecv context_Background :: t), resps.
    split.
    { apply Stream_loop_handed in Hl. rewrite Hl, Hs, map_map. reflexivity. }
    split; [exact Hr|]. split; [exact Hs|].
    split; [apply Forall2_length in HF; now rewrite <- HF|].
    intros i b r Hb Hrsp.
    pose proof (Forall2_nth_error HF i Hb Hrsp) as [Hp Hc].
    pose proof (Hidx i b Hb) as Hi. split; [exact Hp|].
    unfold GetIndex in Hc. rewrite Hi in Hc. split.
    + intros ->. exact Hc.
    + intros Hne. destruct (Z.ltb_spec 0 (Z.of_nat i)); [exact Hc|lia].
Qed.

(** C3 (as amended): a request for the hash of the stored genesis block
    (index 0), when that hash is not the zero digest and the encoder and
    the sender do not fail: [Stream] reads block 0 only, sends exactly one
    response, the packed genesis block with no chain, and returns [nil];
    [out] is left as it is after one call of [Send], with that response
    and the requester's address. *)
Theorem Stream_genesis_target
    (good : S -> Prop) (out : S) (in_ in' : R) (addr : Address)
    (g : SkipBlock) (rest : Database) :
  db (ops h) = g :: rest ->
  GetIndex g = 0 ->
  hash g <> zero_Digest ->
  (exists p, encoder_Pack (ops h) g = Ok p) ->
  reliable good -> good out ->
  Recv in_ context_Background
  = (in', (addr, Msg_BlockRequest {| To := hash g |}, None)) ->
  exists tr p,
    Stream_run h out in_
    = Some (fst (Send out {| Block := p; Chain_ := None |} [addr]), None, tr) /\
    encoder_Pack (ops h) g = Ok p /\
    sends tr = [({| Block := p; Chain_ := None |}, addr, None)] /\
    reads tr = [0].
Proof.
  intros Hd Hidx Hnz Hpack Hrel Hgood Hrecv.
  rewrite (@Stream_run_request _ _ _ _ h out _ _ _ _ Hrecv). cbn [To].
  assert (Hr : Store.Read (db (ops h)) 0 = Ok g) by now rewrite Hd.
  destruct (@Stream_body_succeeds _ _ h addr good 0 out g Hr Hpack) as
    (s1 & t1 & resp & Hb & _ & [Hp Hc] & Hreads & Hs);
    [lia | exact Hrel | exact Hgood |].
  rewrite Stream_loop_step, Hb, Stream_loop_stop, app_nil_r.
  - exists (EvRecv context_Background :: t1), (Block resp).
    rewrite Hidx in Hc. simpl in Hc.
    assert (Hs1 : sends t1 = [({| Block := Block resp; Chain_ := None |}, addr, None)]).
    { rewrite Hs. destruct resp as [bp ch]. simpl in Hc |- *. now subst ch. }
    split.
    { pose proof (Stream_body_handed h addr 0 out) as Hh.
      rewrite Hb in Hh. cbn [fst snd] in Hh. rewrite Hs1 in Hh.
      rewrite Hh. reflexivity. }
    split; [exact Hp|]. split; [|exact Hreads]. exact Hs1.
  - apply bytes_Equal_refl.
  - apply bytes_Equal_false. simpl. congruence.
Qed.

(** C7 (as amended): [Stream] makes no cancellation check.  The only
    context it waits on is [context.Background()], in its single receive;
    its loop ends cleanly only when the target is matched, and ends with
    an error only when the last call it made (read, pack, chain, send)
    failed. *)
Theorem Stream_consults_no_cancellation
    (out : S) (in_ in' : R) (addr : Address) (req : BlockRequest)
    (r : option Error) (tr : list Event) :
  Recv in_ context_Background = (in', (addr, Msg_BlockRequest req, None)) ->
  Stream h out in_ = Some (r, tr) ->
  contexts tr = [context_Background] /\
  match r with
  | None =>
      (To req = zero_Digest /\ sends tr = [] /\ reads tr = []) \/
      (exists b resp rs,
          In b (db (ops h)) /\ hash b = To req /\
          response_for (ops h) b resp /\
          sends tr = rs ++ [(resp, addr, None)])
  | Some _ => exists t0 ev, tr = t0 ++ [ev] /\ failed_call (ops h) ev
  end.
Proof.
  intros Hrecv Hrun. split.
  - rewrite (@Stream_request _ _ _ _ h out _ _ _ _ Hrecv) in Hrun.
    destruct (Stream_loop h addr (To req) (Datatypes.S (List.length (db (ops h))))
                zero_SkipBlock 0 out) as [[[s' t1] r1]|] eqn:Hl; [|discriminate].
    injection Hrun as _ <-. simpl. f_equal. eapply Stream_loop_contexts; eauto.
  - destruct r as [e|].
    + rewrite (@Stream_request _ _ _ _ h out _ _ _ _ Hrecv) in Hrun.
      destruct (Stream_loop h addr (To req) (Datatypes.S (List.length (db (ops h))))
                  zero_SkipBlock 0 out) as [[[s' t1] r1]|] eqn:Hl; [|discriminate].
      injection Hrun as -> <-.
      apply Stream_loop_error in Hl as (t0 & ev & -> & Hev).
      exists (EvRecv context_Background :: t0), ev. now split.
    + eapply Stream_nil_means_target; eauto.
Qed.

End StreamRuns.

(** ** Properties of [Process] *)

(** C10: a request whose message is of any type other than
    [PropagateGenesis] gets a [nil] response and an error; the handler
    (and so its store) is unchanged and no call was made: no decode, no
    insertion. *)
Theorem Process_rejects_other_messages (h : handler) (req : Request) :
  (forall m, req_Message req <> Msg_PropagateGenesis m) ->
  Process h req =
  ((None,
    Some ("unknown message type '" ++ fmt_T (req_Message req) ++ "'")%string),
   h, []) /\
  decodes (Process_trace (Process h req)) = [] /\
  inserts (Process_trace (Process h req)) = [].
Proof.
  intros Hother. unfold Process, Process_trace.
  destruct (req_Message req) as [|m|m|m|t]; try (now repeat split).
  now destruct (Hother m).
Qed.

(** C5: on a [PropagateGenesis] request the response is always [nil] and
    the carried bytes are decoded once.  If decoding fails, [Process]
    returns the decode error in its message, inserts nothing and leaves
    the handler unchanged.  If decoding succeeds, the decoded block is
    passed once to [insertBlock], the store becomes the one [insertBlock]
    leaves, and the error is [nil] when [insertBlock] returns [nil], and
    otherwise its error in the message "couldn't store genesis: ...". *)
Theorem Process_genesis (h : handler) (req : Request) (m : PropagateGenesis) :
  req_Message req = Msg_PropagateGenesis m ->
  Process_response (Process h req) = None /\
  decodes (Process_trace (Process h req)) = [GetGenesis m] /\
  (forall e,
      decodeBlock (ops h) (GetGenesis m) = Err e ->
      Process_error (Process h req) = Some (Errorf "couldn't decode block: " e) /\
      Process_handler (Process h req) = h /\
      inserts (Process_trace (Process h req)) = []) /\
  (forall g,
      decodeBlock (ops h) (GetGenesis m) = Ok g ->
      inserts (Process_trace (Process h req)) = [g] /\
      db (ops (Process_handler (Process h req)))
      = fst (insertBlock (ops h) (db (ops h)) g) /\
      Process_error (Process h req)
      = option_map (Errorf "couldn't store genesis: ")
          (snd (insertBlock (ops h) (db (ops h)) g))).
Proof.
  intros Hreq.
  unfold Process, Process_response, Process_error, Process_handler, Process_trace.
  rewrite Hreq.
  destruct (decodeBlock (ops h) (GetGenesis m)) as [g|e].
  - split; [|split; [|split]].
    + now destruct (insertBlock (ops h) (db (ops h)) g) as [d' [e|]].
    + now destruct (insertBlock (ops h) (db (ops h)) g) as [d' [e|]].
    + intros e0 He0. discriminate He0.
    + intros g' [= <-].
      now destruct (insertBlock (ops h) (db (ops h)) g) as [d' [e|]].
  - simpl. split; [reflexivity|]. split; [reflexivity|].
    split; [intros e' [= <-]; now repeat split | intros g' Hg; discriminate Hg].
Qed.

(** With the genesis already in the store, the spec's genesis step
    succeeds and leaves the store as it is. *)
Lemma insertBlock_identical (d : Database) (g0 g : SkipBlock) :
  Store.Read d 0 = Ok g0 -> hash g0 = hash g ->
  Store.insertBlock d g = (d, None).
Proof.
  intros Hread Hhash.
  assert (Hhas : Store.has_hash d (hash g) = true).
  { destruct d as [|b d]; [discriminate|]. injection Hread as ->.
    unfold Store.has_hash. simpl. now rewrite Hhash, bytes_Equal_refl. }
  unfold Store.insertBlock, Store.Insert. rewrite Hhas.
  destruct (negb (Index g =? Store.Len d)); cbn [orb String.eqb];
    rewrite Hread, Hhash, bytes_Equal_refl; reflexivity.
Qed.

(** C6: with the genesis step of the spec behind [insertBlock],
    propagating the same genesis bytes twice through [Process] succeeds
    both times.  Whenever the store already holds, at index 0, a block
    with the hash of the decoded genesis, [Process] returns [(nil, nil)]
    and leaves the store as it is; and from an empty store, the first
    propagation stores the genesis, the second succeeds as well, and the
    store holds exactly the one genesis block after each.  [Process] has
    no check of its own: the idempotence is that of [insertBlock]. *)
Theorem Process_genesis_twice
    (h : handler) (req : Request) (m : PropagateGenesis) (g : SkipBlock) :
  insertBlock (ops h) = Store.insertBlock ->
  req_Message req = Msg_PropagateGenesis m ->
  decodeBlock (ops h) (GetGenesis m) = Ok g ->
  (forall g0,
      Store.Read (db (ops h)) 0 = Ok g0 -> hash g0 = hash g ->
      Process_response (Process h req) = None /\
      Process_error (Process h req) = None /\
      db (ops (Process_handler (Process h req))) = db (ops h)) /\
  (db (ops h) = [] -> Index g = 0 -> Store.empty_hash (previousHash g) = true ->
   Process_error (Process h req) = None /\
   db (ops (Process_handler (Process h req))) = [g] /\
   Process_response (Process (Process_handler (Process h req)) req) = None /\
   Process_error (Process (Process_handler (Process h req)) req) = None /\
   db (ops (Process_handler (Process (Process_handler (Process h req)) req))) = [g]).
Proof.
  intros Hins Hreq Hdec.
  assert (Hsame : forall h0 g0,
             insertBlock (ops h0) = Store.insertBlock ->
             decodeBlock (ops h0) (GetGenesis m) = Ok g ->
             Store.Read (db (ops h0)) 0 = Ok g0 -> hash g0 = hash g ->
             Process h0 req
             = ((None, None), {| ops := set_db (ops h0) (db (ops h0)) |},
                [EvDecode (GetGenesis m); EvInsert g])).
  { intros h0 g0 Hi Hd Hr Hh. unfold Process. rewrite Hreq, Hd, Hi.
    now rewrite (@insertBlock_identical _ _ _ Hr Hh). }
  split.
  - intros g0 Hr Hh. unfold Process_response, Process_error, Process_handler.
    rewrite (Hsame h g0 Hins Hdec Hr Hh). now repeat split.
  - intros Hdb Hidx Hprev.
    assert (H1 : Store.Insert [] g = Ok [g]).
    { unfold Store.Insert, Store.linked. simpl. rewrite Hidx. simpl. now rewrite Hprev. }
    set (tr := [EvDecode (GetGenesis m); EvInsert g]).
    set (h1 := {| ops := set_db (ops h) [g] |}).
    assert (P1 : Process h req = ((None, None), h1, tr)).
    { unfold Process. rewrite Hreq, Hdec, Hins, Hdb.
      unfold Store.insertBlock. now rewrite H1. }
    assert (P2 : Process h1 req
                 = ((None, None), {| ops := set_db (ops h1) (db (ops h1)) |}, tr)).
    { apply (Hsame h1 g); [exact Hins | exact Hdec | reflexivity | reflexivity]. }
    unfold Process_response, Process_error, Process_handler.
    rewrite P1. cbn [fst snd]. rewrite P2. cbn [fst snd]. now repeat split.
Qed.

(** ** The store's invariant *)

Lemma has_hash_false (d : Database) (x : Digest) :
  Store.has_hash d x = false -> ~ In x (map hash d).
Proof.
  unfold Store.has_hash. induction d as [|b d IH]; simpl; [tauto|].
  rewrite orb_false_iff. intros [Hb Hd] [E|Hin].
  - subst x. now rewrite bytes_Equal_refl in Hb.
  - now apply IH.
Qed.

(** [Store.Insert] keeps the store valid. *)
Lemma Insert_valid (d d' : Database) (b : SkipBlock) :
  valid_store d -> Store.Insert d b = Ok d' -> valid_store d'.
Proof.
  intros [Hidx Hnd]. unfold Store.Insert.
  destruct (Z.eqb_spec (Index b) (Store.Len d)) as [Hlen|]; simpl; [|discriminate].
  destruct (Store.has_hash d (hash b)) eqn:Hh; [discriminate|].
  destruct (Store.linked d b); simpl; [|discriminate].
  intros [= <-]. split.
  - intros i x Hx. destruct (Nat.lt_ge_cases i (List.length d)) as [Hlt|Hge].
    + rewrite nth_error_app1 in Hx by assumption. now apply Hidx.
    + rewrite nth_error_app2 in Hx by assumption.
      destruct (i - List.length d)%nat as [|k] eqn:Hk; simpl in Hx.
      * injection Hx as <-. unfold Store.Len in Hlen. rewrite Hlen. f_equal. lia.
      * now destruct k.
  - rewrite map_app. simpl. apply NoDup_app; [assumption | repeat constructor; simpl; tauto |].
    intros x Hx [<-|[]]. now apply (has_hash_false _ _ Hh).
Qed.

(** The scenario's store is the result of six insertions into the empty
    store, hence valid. *)
Lemma chain6_valid : valid_store Scenario.chain6.
Proof.
  assert (H0 : valid_store []) by (split; [now intros [|i] | constructor]).
  assert (step : forall d b d', valid_store d -> Store.Insert d b = Ok d' -> valid_store d')
    by (intros; eapply Insert_valid; eauto).
  pose proof (step _ (Scenario.block 0 x01 x00) _ H0 eq_refl) as H1.
  pose proof (step _ (Scenario.block 1 x02 x01) _ H1 eq_refl) as H2.
  pose proof (step _ (Scenario.block 2 x03 x02) _ H2 eq_refl) as H3.
  pose proof (step _ (Scenario.block 3 x04 x03) _ H3 eq_refl) as H4.
  pose proof (step _ (Scenario.block 4 x05 x04) _ H4 eq_refl) as H5.
  exact (step _ (Scenario.block 5 x06 x05) _ H5 eq_refl).
Qed.

(** ** The scenario's runs *)

(** C2, counterexample: no block of the six-block store has the zero
    digest as hash, yet a request for the zero digest returns [nil], and
    no response was sent. *)
Lemma Stream_zero_target_unknown_returns_nil :
  Store.has_hash Scenario.chain6 zero_Digest = false /\
  Stream (Scenario.handler_on Scenario.chain6) fake.NewSender
    (Scenario.request zero_Digest)
  = Some (None, [EvRecv context_Background]).
Proof. split; reflexivity. Qed.

(** C3, counterexample: the stored genesis block has the zero digest as
    hash; a request for the genesis hash returns [nil] and gets no
    response. *)
Lemma Stream_zero_genesis_sends_nothing :
  Store.Read [Scenario.zero_genesis] 0 = Ok Scenario.zero_genesis /\
  Stream (Scenario.handler_on [Scenario.zero_genesis]) fake.NewSender
    (Scenario.request (hash Scenario.zero_genesis))
  = Some (None, [EvRecv context_Background]) /\
  sends [EvRecv context_Background] = [].
Proof. repeat split. Qed.

(** C7, counterexample: the caller cancels once the first response has
    been sent, and [Stream] still reads and sends all six blocks. *)
Lemma Stream_runs_past_cancellation :
  exists tr,
    Stream (Scenario.handler_on Scenario.chain6) fake.NewSender
      (Scenario.request (Scenario.digest x06))
    = Some (None, tr) /\
    List.length (sends tr) = 6%nat /\
    ~ observes_cancellation cancel_after_first tr.
Proof.
  eexists. split; [vm_compute; reflexivity|]. split; [reflexivity|].
  intros H. destruct (H 1%nat eq_refl) as [Hr _]. vm_compute in Hr. lia.
Qed.

(** Sample runs of the handler. *)

Example fmt_d_samples : (fmt_d 0, fmt_d 12, fmt_d (-3)) = ("0", "12", "-3").
Proof. reflexivity. Qed.

Example int64_incr_wraps : int64_incr (2 ^ 63 - 1) = - 2 ^ 63.
Proof. reflexivity. Qed.

Example Stream_unknown_target_run :
  exists tr,
    Stream (Scenario.handler_on Scenario.chain6) fake.NewSender
      (Scenario.request (Scenario.digest x09))
    = Some (Some "couldn't read block at index 6: NotFoundError", tr) /\
    List.length (delivered tr) = 6%nat.
Proof. eexists. split; [vm_compute; reflexivity | reflexivity]. Qed.

Example Stream_wrong_message_run :
  Stream (Scenario.handler_on Scenario.chain6) fake.NewSender
    (fake.NewReceiver [Msg_PropagateGenesis {| Genesis := [] |}])
  = Some (Some "invalid message type '*skipchain.PropagateGenesis' != '*skipchain.BlockRequest'",
          [EvRecv context_Background]).
Proof. reflexivity. Qed.

Example Stream_bad_receiver_run :
  Stream (Scenario.handler_on Scenario.chain6) fake.NewSender fake.NewBadReceiver
  = Some (Some "couldn't receive message: fake error", [EvRecv context_Background]).
Proof. reflexivity. Qed.

Example Process_genesis_run :
  Process (Scenario.handler_on []) (Scenario.propagate [x01])
  = ((None, None), Scenario.handler_on [Scenario.block 0 x01 x00],
     [EvDecode [x01]; EvInsert (Scenario.block 0 x01 x00)]).
Proof. reflexivity. Qed.

(** What the requesting peer holds after it is handed responses: those
    responses, each with its one destination, after what it held. *)
Lemma peer_handed (s : peer.Inbox) (l : list (BlockResponse * Address)) :
  handed s l = s ++ map (fun x => (fst x, [snd x])) l.
Proof.
  revert s. induction l as [|x l IH]; intros s; [now rewrite app_nil_r|].
  change (handed s (x :: l)) with (handed (s ++ [(fst x, [snd x])]) l).
  rewrite IH, <- app_assoc. reflexivity.
Qed.

Example Stream_six_blocks_peer :
  option_map (fun x => (List.length (fst (fst x)), snd (fst x)))
    (Stream_run (Scenario.handler_on Scenario.chain6) peer.empty
       (Scenario.request (Scenario.digest x06)))
  = Some (6%nat, None).
Proof. reflexivity. Qed.

Example Stream_genesis_target_peer :
  option_map (fun x => (fst (fst x), snd (fst x)))
    (Stream_run (Scenario.handler_on Scenario.chain6) peer.empty
       (Scenario.request (Scenario.digest x01)))
  = Some ([({| Block := {| bp_data := Scenario.digest x01 ++ [x01] |};
               Chain_ := None |}, [Address_nil])], None).
Proof. reflexivity. Qed.

Example Process_other_genesis_run :
  Process_error
    (Process (Scenario.handler_on [Scenario.block 0 x01 x00]) (Scenario.propagate [x02]))
  = Some "couldn't store genesis: ConflictError".
Proof. reflexivity. Qed.

(** ** The theorems at the scenario *)

(** C1 at the scenario: the six-block store, the requesting peer as
    sender, a request for the hash of block 5. *)
Lemma Stream_six_blocks_witness :
  exists tr resps,
    Stream_run (Scenario.handler_on Scenario.chain6) peer.empty
      (Scenario.request (Scenario.digest x06))
    = Some (handed peer.empty (map (fun r => (r, Address_nil)) resps), None, tr) /\
    reads tr = [0; 1; 2; 3; 4; 5] /\
    sends tr = map (fun r => (r, Address_nil, None)) resps /\
    List.length resps = 6%nat /\
    forall i b r,
      nth_error Scenario.chain6 i = Some b ->
      nth_error resps i = Some r ->
      Scenario.pack b = Ok (Block r) /\
      (i = 0%nat -> Chain_ r = None) /\
      (i <> 0%nat ->
       exists c a, Scenario.get_chain (GetHash b) = Ok c /\
                   Scenario.pack_any c = Ok a /\
                   Chain_ r = Some a).
Proof.
  apply (@Stream_six_blocks _ _ fake_Receiver peer_Sender
           (Scenario.handler_on Scenario.chain6)
           (fun _ => True) peer.empty
           (Scenario.request (Scenario.digest x06))
           (fst (Recv (Scenario.request (Scenario.digest x06)) context_Background))
           Address_nil).
  - reflexivity.
  - exact chain6_valid.
  - simpl. intros b [<-|[<-|[<-|[<-|[<-|[<-|[]]]]]]]; discriminate.
  - intros b _. eexists. reflexivity.
  - intros b _ _. eexists. eexists. split; reflexivity.
  - intros s r a _. split; [reflexivity | exact I].
  - exact I.
  - reflexivity.
Defined.

(** C4 at a receiver whose first receive returns an error. *)
Lemma Stream_rejects_first_message_witness :
  exists e tr,
    Stream (Scenario.handler_on Scenario.chain6) fake.NewSender fake.NewBadReceiver
    = Some (Some e, tr) /\
    sends tr = [] /\ reads tr = [].
Proof.
  apply (@Stream_rejects_first_message _ _ fake_Receiver fake_Sender
           (Scenario.handler_on Scenario.chain6) fake.NewSender fake.NewBadReceiver
           fake.NewBadReceiver Address_nil Msg_nil (Some "fake error")).
  - reflexivity.
  - left. discriminate.
Defined.

(** C9 at the six-block store. *)
Lemma Stream_zero_target_witness :
  Stream (Scenario.handler_on Scenario.chain6) fake.NewSender
    (Scenario.request zero_Digest)
  = Some (None, [EvRecv context_Background]) /\
  reads [EvRecv context_Background] = [] /\
  sends [EvRecv context_Background] = [].
Proof.
  apply (@Stream_zero_target _ _ fake_Receiver fake_Sender
           (Scenario.handler_on Scenario.chain6) fake.NewSender
           (Scenario.request zero_Digest)
           (fst (Recv (Scenario.request zero_Digest) context_Background))
           Address_nil).
  reflexivity.
Defined.


(** C7 at the six-block store and a request for the hash of block 2. *)
Lemma Stream_consults_no_cancellation_witness :
  exists tr,
    Stream (Scenario.handler_on Scenario.chain6) fake.NewSender
      (Scenario.request (Scenario.digest x03))
    = Some (None, tr) /\
    contexts tr = [context_Background] /\
    ((Scenario.digest x03 = zero_Digest /\ sends tr = [] /\ reads tr = []) \/
     (exists b resp rs,
         In b Scenario.chain6 /\ hash b = Scenario.digest x03 /\
         response_for (Scenario.operations_on Scenario.chain6) b resp /\
         sends tr = rs ++ [(resp, Address_nil, None)])).
Proof.
  eexists. split; [vm_compute; reflexivity|].
  eapply (@Stream_consults_no_cancellation _ _ fake_Receiver fake_Sender
            (Scenario.handler_on Scenario.chain6) fake.NewSender
            (Scenario.request (Scenario.digest x03))
            (fst (Recv (Scenario.request (Scenario.digest x03)) context_Background))
            Address_nil {| To := Scenario.digest x03 |} None).
  - reflexivity.
  - vm_compute. reflexivity.
Defined.

(** C10 at a [BlockRequest] handed to [Process]. *)
Lemma Process_rejects_other_messages_witness :
  Process (Scenario.handler_on Scenario.chain6)
    {| req_Address := Address_fake 1;
       req_Message := Msg_BlockRequest {| To := Scenario.digest x06 |} |}
  = ((None, Some "unknown message type '*skipchain.BlockRequest'"),
     Scenario.handler_on Scenario.chain6, []).
Proof.
  apply (@Process_rejects_other_messages (Scenario.handler_on Scenario.chain6)
           {| req_Address := Address_fake 1;
              req_Message := Msg_BlockRequest {| To := Scenario.digest x06 |} |}).
  intros m. discriminate.
Defined.

(** C5 at the empty store: well-formed genesis bytes, then malformed
    ones. *)
Lemma Process_genesis_witness :
  Process_response (Process (Scenario.handler_on []) (Scenario.propagate [x01])) = None /\
  db (ops (Process_handler (Process (Scenario.handler_on []) (Scenario.propagate [x01]))))
  = [Scenario.block 0 x01 x00] /\
  Process_error (Process (Scenario.handler_on []) (Scenario.propagate [x01; x02]))
  = Some "couldn't decode block: malformed block".
Proof.
  destruct (@Process_genesis (Scenario.handler_on []) (Scenario.propagate [x01])
              {| Genesis := [x01] |} eq_refl) as (Hresp & _ & _ & Hok).
  destruct (Hok (Scenario.block 0 x01 x00) eq_refl) as (_ & Hdb & _).
  destruct (@Process_genesis (Scenario.handler_on []) (Scenario.propagate [x01; x02])
              {| Genesis := [x01; x02] |} eq_refl) as (_ & _ & Hbad & _).
  destruct (Hbad "malformed block" eq_refl) as (Herr & _).
  split; [exact Hresp|]. split; [exact Hdb | exact Herr].
Defined.

(** C6 at the scenario's genesis bytes: into the six-block store, whose
    genesis they decode to, and twice into the empty store. *)
Lemma Process_genesis_twice_witness :
  (Process_response (Process (Scenario.handler_on Scenario.chain6)
                       (Scenario.propagate [x01])) = None /\
   Process_error (Process (Scenario.handler_on Scenario.chain6)
                    (Scenario.propagate [x01])) = None /\
   db (ops (Process_handler (Process (Scenario.handler_on Scenario.chain6)
                               (Scenario.propagate [x01]))))
   = Scenario.chain6) /\
  (Process_error (Process (Scenario.handler_on []) (Scenario.propagate [x01])) = None /\
   db (ops (Process_handler (Process (Scenario.handler_on []) (Scenario.propagate [x01]))))
   = [Scenario.block 0 x01 x00] /\
   Process_response
     (Process
        (Process_handler (Process (Scenario.handler_on []) (Scenario.propagate [x01])))
        (Scenario.propagate [x01]))
   = None /\
   Process_error
     (Process
        (Process_handler (Process (Scenario.handler_on []) (Scenario.propagate [x01])))
        (Scenario.propagate [x01]))
   = None /\
   db (ops (Process_handler
              (Process
                 (Process_handler
                    (Process (Scenario.handler_on []) (Scenario.propagate [x01])))
                 (Scenario.propagate [x01]))))
   = [Scenario.block 0 x01 x00]).
Proof.
  split.
  - apply (proj1 (@Process_genesis_twice (Scenario.handler_on Scenario.chain6)
                    (Scenario.propagate [x01]) {| Genesis := [x01] |}
                    (Scenario.block 0 x01 x00) eq_refl eq_refl eq_refl)
             (Scenario.block 0 x01 x00));
      reflexivity.
  - apply (proj2 (@Process_genesis_twice (Scenario.handler_on [])
                    (Scenario.propagate [x01]) {| Genesis := [x01] |}
                    (Scenario.block 0 x01 x00) eq_refl eq_refl eq_refl));
      reflexivity.
Defined.

(** C2 at the six-block store and a hash that no block has. *)
Lemma Stream_unknown_target_witness :
  exists e tr k resps,
    Stream (Scenario.handler_on Scenario.chain6) fake.NewSender
      (Scenario.request (Scenario.digest x09))
    = Some (Some e, tr) /\
    Forall2 (response_for (Scenario.operations_on Scenario.chain6))
      (firstn k Scenario.chain6) resps /\
    delivered tr = map (fun x => (x, Address_nil)) resps.
Proof.
  assert (Hrecv : Recv (Scenario.request (Scenario.digest x09)) context_Background
                  = (fst (Recv (Scenario.request (Scenario.digest x09))
                            context_Background),
                     (Address_nil, Msg_BlockRequest {| To := Scenario.digest x09 |},
                      None))) by reflexivity.
  apply (proj1 (@Stream_unknown_target _ _ fake_Receiver fake_Sender
                  (Scenario.handler_on Scenario.chain6) fake.NewSender
                  (Scenario.request (Scenario.digest x09)) _
                  Address_nil {| To := Scenario.digest x09 |} Hrecv)).
  - discriminate.
  - simpl. intros b [<-|[<-|[<-|[<-|[<-|[<-|[]]]]]]]; discriminate.
Defined.

(** C3 at the six-block store and the hash of its genesis block. *)
Lemma Stream_genesis_target_witness :
  exists tr p,
    Stream_run (Scenario.handler_on Scenario.chain6) peer.empty
      (Scenario.request (Scenario.digest x01))
    = Some (fst (Send peer.empty {| Block := p; Chain_ := None |} [Address_nil]),
            None, tr) /\
    Scenario.pack (Scenario.block 0 x01 x00) = Ok p /\
    sends tr = [({| Block := p; Chain_ := None |}, Address_nil, None)] /\
    reads tr = [0].
Proof.
  apply (@Stream_genesis_target _ _ fake_Receiver peer_Sender
           (Scenario.handler_on Scenario.chain6)
           (fun _ => True) peer.empty
           (Scenario.request (Scenario.digest x01))
           (fst (Recv (Scenario.request (Scenario.digest x01)) context_Background))
           Address_nil (Scenario.block 0 x01 x00) (tl Scenario.chain6)).
  - reflexivity.
  - reflexivity.
  - discriminate.
  - eexists. reflexivity.
  - intros s r a _. split; [reflexivity | exact I].
  - exact I.
  - reflexivity.
Defined.

(** * Further properties of the handler *)

Section StreamWork.

Context {S : Type} {SS : Sender S}.

Variable h : handler.
Variable addr : Address.

(** An iteration reads the store once, at its counter, sends at most
    once, and asks a chain only for the hash of the block it has read,
    when that block's index is above zero. *)
Lemma Stream_body_work (i : Z) (s : S) :
  reads (snd (fst (Stream_body h addr i s))) = [i] /\
  (List.length (sends (snd (fst (Stream_body h addr i s)))) <= 1)%nat /\
  Forall (fun hsh => exists b, Store.Read (db (ops h)) i = Ok b /\
                               hash b = hsh /\ 0 < GetIndex b)
    (chains_asked (snd (fst (Stream_body h addr i s)))).
Proof.
  unfold Stream_body, bind, call, send, ret; simpl.
  destruct (Store.Read (db (ops h)) i) as [blk|e1]; [|simpl; auto].
  destruct (encoder_Pack (ops h) blk) as [bp|e1]; [|simpl; auto].
  destruct (0 <? GetIndex blk) eqn:Hidx; simpl.
  - apply Z.ltb_lt in Hidx.
    assert (Hc : Forall (fun hsh => exists b, Ok blk = Ok b /\ hash b = hsh /\ 0 < GetIndex b)
                   [GetHash blk]) by (repeat constructor; eauto).
    destruct (consensus_GetChain (ops h) (GetHash blk)) as [c|e1]; [|simpl; auto].
    simpl. destruct (encoder_PackAny (ops h) c) as [a|e1]; [|simpl; auto].
    simpl. destruct (Send s {| Block := bp; Chain_ := Some a |} [addr]) as [s1 [e1|]];
      simpl; auto.
  - destruct (Send s {| Block := bp; Chain_ := None |} [addr]) as [s1 [e1|]];
      simpl; auto.
Qed.

Variable to : bytes.

Lemma chains_asked_app (t1 t2 : list Event) :
  chains_asked (t1 ++ t2) = chains_asked t1 ++ chains_asked t2.
Proof. unfold chains_asked. apply flat_map_app. Qed.

(** The loop reads the store at consecutive counter values, at most once
    more than there are blocks left, sends at most once per read, and
    asks chains only for stored blocks of index above zero. *)
Lemma Stream_loop_work (fuel : nat) :
  forall (block : SkipBlock) (i : Z) (s s' : S) (t : list Event) (r : option Error),
    - 2 ^ 63 <= i < 2 ^ 63 ->
    Stream_loop h addr to fuel block i s = Some (s', t, r) ->
    exists m,
      reads t = counter_values i m /\
      (m <= remaining (db (ops h)) i + 1)%nat /\
      (List.length (sends t) <= m)%nat /\
      Forall (fun hsh => exists b, In b (db (ops h)) /\ hash b = hsh /\ 0 < GetIndex b)
        (chains_asked t).
Proof.
  induction fuel as [|fuel IH]; intros block i s s' t r Hi; simpl.
  - destruct (bytes_Equal (hash block) to); [|discriminate].
    intros [= <- <- <-]. exists 0%nat. simpl. repeat split; auto; lia.
  - destruct (bytes_Equal (hash block) to).
    { intros [= <- <- <-]. exists 0%nat. simpl. repeat split; auto; lia. }
    destruct (Stream_body_work i s) as (Hr & Hs & Hc).
    assert (Hc' : Forall (fun hsh => exists b, In b (db (ops h)) /\ hash b = hsh /\ 0 < GetIndex b)
                    (chains_asked (snd (fst (Stream_body h addr i s))))).
    { eapply Forall_impl; [|exact Hc]. intros hsh (b & Hb & Hh & Hidx).
      exists b. split; [eapply Read_Ok_In; eauto | now split]. }
    destruct (Stream_body h addr i s) as [[s1 t1] [b'|e1]] eqn:Hb; simpl in Hr, Hs, Hc'.
    + destruct (Stream_loop h addr to fuel b' (int64_incr i) s1)
        as [[[s2 t2] r2]|] eqn:Hl; [|discriminate].
      intros [= <- <- <-].
      apply Stream_body_Ok in Hb as (Hread & _).
      pose proof (@remaining_decreases _ _ _ (proj2 Hi) Hread) as Hdec.
      destruct (IH _ _ _ _ _ _ (int64_incr_range i) Hl) as (m & Hm & Hle & Hsm & Hcm).
      exists (Datatypes.S m). rewrite reads_app, sends_app, chains_asked_app, Hr, Hm.
      rewrite length_app. simpl.
      split; [reflexivity|]. split; [lia|]. split; [lia|].
      apply Forall_app. now split.
    + intros [= <- <- <-]. exists 1%nat. rewrite Hr. simpl.
      split; [reflexivity|]. split; [lia|]. now split.
Qed.

End StreamWork.

Section StreamFurther.

Context {R S : Type} {RR : Receiver R} {SS : Sender S}.

Variable h : handler.

(** X1: the work of [Stream] is bounded by the store: it never reads
    the store more than once more than the store has blocks, its reads
    are at the counter values 0, 1, 2, ... in order, and it never sends
    more than one response per read.  The runs are those of a first
    message that is [nil], a non-nil request or of another type, with
    collaborators whose calls return. *)
Theorem Stream_work_bounded (out : S) (in_ : R) :
  exists r tr m,
    Stream h out in_ = Some (r, tr) /\
    reads tr = counter_values 0 m /\
    (m <= List.length (db (ops h)) + 1)%nat /\
    (List.length (sends tr) <= m)%nat.
Proof.
  rewrite Stream_eq.
  destruct (Recv in_ context_Background) as [in' [[addr msg] [e|]]].
  { eexists. eexists. exists 0%nat.
    split; [reflexivity|]. split; [reflexivity|]. simpl. split; lia. }
  destruct msg as [|m0|req|m0|t0];
    try (eexists; eexists; exists 0%nat;
         split; [reflexivity|]; split; [reflexivity|]; simpl; split; lia).
  destruct (@Stream_loop_returns _ _ h addr (To req)
              (Datatypes.S (List.length (db (ops h)))) zero_SkipBlock 0 out)
    as ([[s' t] r] & Hl); [lia | unfold remaining; simpl; lia |].
  rewrite Hl.
  assert (Hi0 : - 2 ^ 63 <= 0 < 2 ^ 63) by lia.
  destruct (@Stream_loop_work _ _ h addr (To req) _ zero_SkipBlock 0 out s' t r Hi0 Hl)
    as (m & Hm & Hle & Hs & _).
  exists r, (EvRecv context_Background :: t), m.
  split; [reflexivity|]. split; [exact Hm|].
  unfold remaining in Hle. simpl in Hle. rewrite Nat.sub_0_r in Hle.
  split; [exact Hle | exact Hs].
Qed.

(** X2: in every run of [Stream], the responses delivered are those of
    the first [k] blocks of the store, in the store's order, for some
    [k]: each one is built from its block (packed block, and packed chain
    exactly when the block's index is above zero), no block is skipped,
    repeated or sent out of order, and all go to the address the request
    came from. *)
Theorem Stream_delivers_store_prefix (out : S) (in_ : R) :
  exists r tr k resps,
    Stream h out in_ = Some (r, tr) /\
    Forall2 (response_for (ops h)) (firstn k (db (ops h))) resps /\
    delivered tr
    = map (fun x => (x, fst (fst (snd (Recv in_ context_Background))))) resps.
Proof.
  rewrite Stream_eq.
  destruct (Recv in_ context_Background) as [in' [[addr msg] [e|]]]; cbn [fst snd].
  { eexists. eexists. exists 0%nat, []. repeat split. constructor. }
  destruct msg as [|m0|req|m0|t0];
    try (eexists; eexists; exists 0%nat, []; repeat split; constructor).
  destruct (@Stream_loop_returns _ _ h addr (To req)
              (Datatypes.S (List.length (db (ops h)))) zero_SkipBlock 0 out)
    as ([[s' t] r] & Hl); [lia | unfold remaining; simpl; lia |].
  rewrite Hl.
  assert (H63 : 0 < 2 ^ 63) by lia.
  destruct (@Stream_loop_delivered _ _ h addr (To req) _ zero_SkipBlock 0
              out s' t r H63 Hl) as (k & resps & HF & Hd).
  exists r, (EvRecv context_Background :: t), k, resps.
  split; [reflexivity|]. split; [exact HF | exact Hd].
Qed.

(** X3: [Stream] asks the consensus engine for a chain only for the hash
    of a stored block whose index is above zero: never for the genesis
    block, never for a hash that is not in the store. *)
Theorem Stream_asks_chain_above_genesis (out : S) (in_ : R) :
  exists r tr,
    Stream h out in_ = Some (r, tr) /\
    Forall (fun hsh => exists b, In b (db (ops h)) /\ hash b = hsh /\ 0 < GetIndex b)
      (chains_asked tr).
Proof.
  rewrite Stream_eq.
  destruct (Recv in_ context_Background) as [in' [[addr msg] [e|]]]; cbn [fst snd].
  { eexists. eexists. split; [reflexivity|constructor]. }
  destruct msg as [|m0|req|m0|t0];
    try (eexists; eexists; split; [reflexivity|constructor]).
  destruct (@Stream_loop_returns _ _ h addr (To req)
              (Datatypes.S (List.length (db (ops h)))) zero_SkipBlock 0 out)
    as ([[s' t] r] & Hl); [lia | unfold remaining; simpl; lia |].
  rewrite Hl.
  assert (Hi0 : - 2 ^ 63 <= 0 < 2 ^ 63) by lia.
  destruct (@Stream_loop_work _ _ h addr (To req) _ zero_SkipBlock 0 out s' t r Hi0 Hl)
    as (m & _ & _ & _ & Hc).
  exists r, (EvRecv context_Background :: t). split; [reflexivity | exact Hc].
Qed.

(** X19: [Stream] passes to [out.Send] what its trace shows as sent and
    nothing else: whatever the sender is, it is left as [out] after one
    call of [Send] per send of the trace, in the trace's order, with that
    send's response and the single address of that send.  Nothing else in
    [Stream] touches the sender. *)
Theorem Stream_hands_over_its_sends (out : S) (in_ : R) :
  exists s r tr,
    Stream_run h out in_ = Some (s, r, tr) /\
    Stream h out in_ = Some (r, tr) /\
    s = handed out (map fst (sends tr)).
Proof.
  destruct (Stream_returns h out in_) as [[r tr] Hs].
  unfold Stream in Hs.
  destruct (Stream_run h out in_) as [[[s r'] tr']|] eqn:Hrun; [|discriminate].
  injection Hs as -> ->.
  exists s, r, tr. split; [reflexivity|]. split.
  - unfold Stream. now rewrite Hrun.
  - exact (Stream_run_handed _ _ _ Hrun).
Qed.

End StreamFurther.

Section Exhaust.

Context {S : Type} {SS : Sender S}.

Variable h : handler.
Variable addr : Address.
Variable to : bytes.

(** With healthy collaborators and no block that matches the target
    from the position after [pre] on, the loop walks all the remaining
    blocks, sends the response of each, and fails on the read past the
    end of the store. *)
Lemma Stream_loop_exhausts (good : S -> Prop) (rest : list SkipBlock) :
  forall (pre : list SkipBlock) (block : SkipBlock) (s : S) (fuel : nat),
    db (ops h) = pre ++ rest ->
    Z.of_nat (List.length (db (ops h))) < 2 ^ 63 ->
    hash block <> to ->
    (forall b, In b rest -> hash b <> to) ->
    (forall b, In b rest -> exists p, encoder_Pack (ops h) b = Ok p) ->
    (forall b, In b rest -> 0 < GetIndex b ->
               exists c a, consensus_GetChain (ops h) (GetHash b) = Ok c /\
                           encoder_PackAny (ops h) c = Ok a) ->
    reliable good ->
    good s ->
    (List.length rest < fuel)%nat ->
    exists s' t resps cause,
      Stream_loop h addr to fuel block (Z.of_nat (List.length pre)) s
      = Some (s', t,
              Some (Errorf ("couldn't read block at index "
                              ++ fmt_d (Z.of_nat (List.length (db (ops h)))) ++ ": ")%string
                      cause)) /\
      Store.Read (db (ops h)) (Z.of_nat (List.length (db (ops h)))) = Err cause /\
      Forall2 (response_for (ops h)) rest resps /\
      sends t = map (fun r => (r, addr, None)) resps.
Proof.
  induction rest as [|m rest IH];
    intros pre block s fuel Hdb Hlen Hblock Hrest Hpack Hchain Hrel Hgood Hfuel;
    (destruct fuel as [|fuel]; [simpl in Hfuel; lia|]);
    apply bytes_Equal_false in Hblock; rewrite Stream_loop_step by exact Hblock.
  - rewrite app_nil_r in Hdb.
    assert (Hr : Store.Read (db (ops h)) (Z.of_nat (List.length pre))
                 = Err Store.NotFoundError).
    { rewrite Read_of_nat, Hdb.
      now rewrite (proj2 (nth_error_None pre (List.length pre)) (Nat.le_refl _)). }
    rewrite (Stream_body_read_fails h addr _ s Hr).
    exists s, [EvRead (Z.of_nat (List.length pre))], [], Store.NotFoundError.
    replace (List.length (db (ops h))) with (List.length pre) by now rewrite Hdb.
    split; [reflexivity|]. split; [exact Hr|].
    split; [constructor|reflexivity].
  - assert (Hr : Store.Read (db (ops h)) (Z.of_nat (List.length pre)) = Ok m).
    { rewrite Read_of_nat, Hdb. now rewrite nth_error_middle. }
    destruct (@Stream_body_succeeds _ _ h addr good _ s _ Hr)
      as (s1 & t1 & resp & Hb & Hg1 & Hresp & Hreads & Hs);
      [apply Hpack; simpl; tauto | apply Hchain; simpl; tauto
      | assumption | assumption |].
    rewrite Hb.
    assert (Hnext : int64_incr (Z.of_nat (List.length pre))
                    = Z.of_nat (List.length (pre ++ [m]))).
    { rewrite length_app. simpl. rewrite Nat2Z.inj_add. simpl.
      apply int64_incr_small; [lia|].
      rewrite Hdb, length_app in Hlen. simpl in Hlen. lia. }
    rewrite Hnext.
    destruct (IH (pre ++ [m]) m s1 fuel)
      as (s2 & t2 & resps & cause & Hl & Hc & HF & Hs2).
    + rewrite Hdb, <- app_assoc. reflexivity.
    + assumption.
    + apply Hrest. simpl; tauto.
    + intros b Hb'. apply Hrest. simpl; tauto.
    + intros b Hb'. apply Hpack. simpl; tauto.
    + intros b Hb'. apply Hchain. simpl; tauto.
    + assumption.
    + assumption.
    + simpl in Hfuel. lia.
    + rewrite Hl. exists s2, (t1 ++ t2), (resp :: resps), cause.
      split; [reflexivity|]. split; [exact Hc|]. split; [now constructor|].
      rewrite sends_app, Hs, Hs2. reflexivity.
Qed.

End Exhaust.

Section StreamTargets.

Context {R S : Type} {RR : Receiver R} {SS : Sender S}.

Variable h : handler.

(** X4: [Stream] stops at the first block whose hash is the target.
    When the target is not the zero digest, the blocks [mid] before the
    first match all have another hash and the collaborators do not fail
    on [mid] and on the match, [Stream] reads exactly those blocks, sends
    exactly their responses in order, and returns [nil]; the blocks
    [post] after the match are never read, whatever their hashes.  The
    sender is left as [out] after one call of [Send] per response, in
    that order, each to the requester's address. *)
Theorem Stream_stops_at_first_match
    (good : S -> Prop) (out : S) (in_ in' : R) (addr : Address) (req : BlockRequest)
    (mid post : list SkipBlock) (target : SkipBlock) :
  Recv in_ context_Background = (in', (addr, Msg_BlockRequest req, None)) ->
  db (ops h) = mid ++ target :: post ->
  Z.of_nat (List.length (db (ops h))) <= 2 ^ 63 ->
  To req <> zero_Digest ->
  (forall b, In b mid -> hash b <> To req) ->
  hash target = To req ->
  (forall b, In b (mid ++ [target]) -> exists p, encoder_Pack (ops h) b = Ok p) ->
  (forall b, In b (mid ++ [target]) -> 0 < GetIndex b ->
             exists c a, consensus_GetChain (ops h) (GetHash b) = Ok c /\
                         encoder_PackAny (ops h) c = Ok a) ->
  reliable good -> good out ->
  exists tr resps,
    Stream_run h out in_
    = Some (handed out (map (fun r => (r, addr)) resps), None, tr) /\
    Forall2 (response_for (ops h)) (mid ++ [target]) resps /\
    sends tr = map (fun r => (r, addr, None)) resps /\
    reads tr = map Z.of_nat (seq 0 (Datatypes.S (List.length mid))).
Proof.
  intros Hrecv Hdb Hlen Hz Hmid Htarget Hpack Hchain Hrel Hgood.
  rewrite (@Stream_run_request _ _ _ _ h out _ _ _ _ Hrecv).
  destruct (@Stream_loop_catch_up _ _ h addr (To req) good mid [] post target
              zero_SkipBlock out (Datatypes.S (List.length (db (ops h)))))
    as (s' & t & resps & Hl & HF & Hs & Hr); try assumption.
  - simpl. congruence.
  - rewrite Hdb, length_app. simpl. lia.
  - change (Z.of_nat (List.length (@nil SkipBlock))) with 0 in Hl. rewrite Hl.
    exists (EvRecv context_Background :: t), resps.
    split.
    { apply Stream_loop_handed in Hl. rewrite Hl, Hs, map_map. reflexivity. }
    split; [exact HF|]. split; [exact Hs | exact Hr].
Qed.

(** X5: a target that no block has, and that is not the zero digest,
    costs the whole store: when the collaborators do not fail, [Stream]
    sends the response of every stored block, in order, and only then
    returns the error of the read at the index just past the end,
    "couldn't read block at index <length>: ...".  The sender is left as
    [out] after one call of [Send] per stored block, in the store's
    order, each to the requester's address. *)
Theorem Stream_unknown_target_streams_store
    (good : S -> Prop) (out : S) (in_ in' : R) (addr : Address) (req : BlockRequest) :
  Recv in_ context_Background = (in', (addr, Msg_BlockRequest req, None)) ->
  Z.of_nat (List.length (db (ops h))) < 2 ^ 63 ->
  To req <> zero_Digest ->
  (forall b, In b (db (ops h)) -> hash b <> To req) ->
  (forall b, In b (db (ops h)) -> exists p, encoder_Pack (ops h) b = Ok p) ->
  (forall b, In b (db (ops h)) -> 0 < GetIndex b ->
             exists c a, consensus_GetChain (ops h) (GetHash b) = Ok c /\
                         encoder_PackAny (ops h) c = Ok a) ->
  reliable good -> good out ->
  exists tr resps cause,
    Stream_run h out in_
    = Some (handed out (map (fun r => (r, addr)) resps),
            Some (Errorf ("couldn't read block at index "
                            ++ fmt_d (Z.of_nat (List.length (db (ops h)))) ++ ": ")%string
                    cause), tr) /\
    Forall2 (response_for (ops h)) (db (ops h)) resps /\
    sends tr = map (fun r => (r, addr, None)) resps.
Proof.
  intros Hrecv Hlen Hz Hnot Hpack Hchain Hrel Hgood.
  rewrite (@Stream_run_request _ _ _ _ h out _ _ _ _ Hrecv).
  destruct (@Stream_loop_exhausts _ _ h addr (To req) good (db (ops h)) []
              zero_SkipBlock out (Datatypes.S (List.length (db (ops h)))))
    as (s' & t & resps & cause & Hl & _ & HF & Hs); try assumption.
  - reflexivity.
  - simpl. congruence.
  - lia.
  - change (Z.of_nat (List.length (@nil SkipBlock))) with 0 in Hl. rewrite Hl.
    exists (EvRecv context_Background :: t), resps, cause.
    split.
    { apply Stream_loop_handed in Hl. rewrite Hl, Hs, map_map. reflexivity. }
    split; [exact HF | exact Hs].
Qed.

End StreamTargets.

(** * Properties of the doubles of [internal/testing/fake] *)

Lemma last_nth {A : Type} (l : list A) (d : A) :
  last l d = nth (List.length l - 1) l d.
Proof.
  induction l as [|a [|b l] IH]; try reflexivity.
  change (last (a :: b :: l) d) with (last (b :: l) d). rewrite IH.
  simpl. now rewrite Nat.sub_0_r.
Qed.

Lemma fake_Recv_state (e : option Error) (msgs : list Message) (j : nat) (ctx : Context) :
  fst (fake.Recv {| fake.r_err := e; fake.Msg := msgs; fake.r_index := j |} ctx)
  = {| fake.r_err := e; fake.Msg := msgs;
       fake.r_index := if (List.length msgs <=? j)%nat then j else Datatypes.S j |}.
Proof.
  unfold fake.Recv. cbn [fake.Msg fake.r_index fake.r_err].
  destruct msgs as [|m msgs]; [reflexivity|].
  now destruct (List.length (m :: msgs) <=? j)%nat.
Qed.

Lemma receiver_after_index (k : nat) :
  forall (e : option Error) (msgs : list Message) (j : nat),
    receiver_after k {| fake.r_err := e; fake.Msg := msgs; fake.r_index := j |}
    = {| fake.r_err := e; fake.Msg := msgs;
         fake.r_index := if (List.length msgs <=? j)%nat then j
                         else Nat.min (j + k) (List.length msgs) |}.
Proof.
  induction k as [|k IH]; intros e msgs j.
  - cbn [receiver_after].
    destruct (Nat.leb_spec (List.length msgs) j); [reflexivity|]. f_equal. lia.
  - cbn [receiver_after]. rewrite fake_Recv_state, IH.
    destruct (Nat.leb_spec (List.length msgs) j) as [Hle|Hlt].
    + destruct (Nat.leb_spec (List.length msgs) j); [reflexivity|lia].
    + destruct (Nat.leb_spec (List.length msgs) (Datatypes.S j)); f_equal; lia.
Qed.

Lemma fake_Recv_value (e : option Error) (msgs : list Message) (j : nat) (ctx : Context) :
  snd (fake.Recv {| fake.r_err := e; fake.Msg := msgs; fake.r_index := j |} ctx)
  = (Address_nil, nth (Nat.min j (List.length msgs - 1)) msgs Msg_nil, e).
Proof.
  unfold fake.Recv. cbn [fake.Msg fake.r_index fake.r_err].
  destruct msgs as [|m msgs]; [now destruct j|].
  destruct (Nat.leb_spec (List.length (m :: msgs)) j) as [Hle|Hlt]; cbn [snd].
  - rewrite last_nth. do 2 f_equal. f_equal. lia.
  - do 2 f_equal. f_equal. simpl in Hlt |- *. lia.
Qed.

(** X6: the fake receiver replays its messages: the call number [k]
    (from 0) of [Recv] on a receiver made with the messages [msgs] and
    the error [e] returns the message number [k], and the last message
    again once they are all consumed; with no message it returns [nil].
    The address is always [nil], the error always [e], and the context is
    ignored. *)
Theorem fake_Recv_replays
    (e : option Error) (msgs : list Message) (k : nat) (ctx : Context) :
  snd (fake.Recv
         (receiver_after k {| fake.r_err := e; fake.Msg := msgs; fake.r_index := 0 |})
         ctx)
  = (Address_nil, nth (Nat.min k (List.length msgs - 1)) msgs Msg_nil, e).
Proof.
  rewrite receiver_after_index, fake_Recv_value. do 2 f_equal. f_equal.
  destruct (Nat.leb_spec (List.length msgs) 0); lia.
Qed.

Section CallProperties.

Variable V : Type.

Lemma Call_fold_Add (argss calls : list (list (option V))) :
  fold_left (@FakeCall.Add V) argss (Some calls) = Some (calls ++ argss).
Proof.
  revert calls. induction argss as [|args argss IH]; intros calls; simpl.
  - now rewrite app_nil_r.
  - rewrite IH, <- app_assoc. reflexivity.
Qed.

(** X7: a [Call] records the calls added to it, in order, after those it
    already holds: after adding the argument lists [argss] to a non-nil
    [Call] that holds [calls], [Len] has grown by their number, [Get]
    still returns the arguments of the calls held before, and [Get] at the
    position of an added call returns that call's argument. *)
Theorem Call_Add_then_Get (calls argss : list (list (option V))) :
  let c := fold_left (@FakeCall.Add V) argss (Some calls) in
  FakeCall.Len c = FakeCall.Len (Some calls) + Z.of_nat (List.length argss) /\
  (forall n i, 0 <= n < Z.of_nat (List.length calls) ->
               FakeCall.Get c n i = FakeCall.Get (Some calls) n i) /\
  (forall n args i v,
      nth_error argss n = Some args ->
      nth_error args i = Some v ->
      FakeCall.Get c (Z.of_nat (List.length calls + n)) (Z.of_nat i) = Returns v).
Proof.
  intros c. unfold c. rewrite Call_fold_Add. unfold FakeCall.Len, FakeCall.Get.
  split; [rewrite length_app; lia|]. split.
  - intros n i Hn. unfold slice_at. destruct (Z.ltb_spec n 0); [lia|].
    rewrite nth_error_app1 by lia. reflexivity.
  - intros n args i v Hargs Hv. unfold slice_at.
    destruct (Z.ltb_spec (Z.of_nat (List.length calls + n)) 0); [lia|].
    rewrite Nat2Z.id, nth_error_app2 by lia.
    replace (List.length calls + n - List.length calls)%nat with n by lia.
    rewrite Hargs. destruct (Z.ltb_spec (Z.of_nat i) 0); [lia|].
    now rewrite Nat2Z.id, Hv.
Qed.

(** X8: [Get] on a non-nil [Call] panics exactly when the call number or
    the argument number is out of range; nothing else makes it panic. *)
Theorem Call_Get_panics (calls : list (list (option V))) (n i : Z) :
  FakeCall.Get (Some calls) n i = Panics <->
  ~ (0 <= n < Z.of_nat (List.length calls) /\
     0 <= i < Z.of_nat (List.length (nth (Z.to_nat n) calls []))).
Proof.
  unfold FakeCall.Get, slice_at.
  destruct (Z.ltb_spec n 0) as [Hn|Hn]; [split; [lia|reflexivity]|].
  destruct (nth_error calls (Z.to_nat n)) as [args|] eqn:Hargs.
  - assert (Hlt : (Z.to_nat n < List.length calls)%nat)
      by (apply nth_error_Some; congruence).
    rewrite (nth_error_nth _ _ [] Hargs).
    destruct (Z.ltb_spec i 0) as [Hi|Hi]; [split; [lia|reflexivity]|].
    destruct (nth_error args (Z.to_nat i)) as [v|] eqn:Hv.
    + assert (Hli : (Z.to_nat i < List.length args)%nat)
        by (apply nth_error_Some; congruence).
      split; [discriminate|]. intros Hno. exfalso. apply Hno. lia.
    + apply nth_error_None in Hv. split; [lia|reflexivity].
  - apply nth_error_None in Hargs. split; [lia|reflexivity].
Qed.

(** X9: a [nil] [Call] is safe and records nothing: whatever is added to
    it, it stays [nil], its [Len] is 0, [Get] returns [nil] without a
    panic at every position, and [Clear] leaves it [nil]. *)
Theorem Call_nil_records_nothing (argss : list (list (option V))) (n i : Z) :
  let c := fold_left (@FakeCall.Add V) argss None in
  c = None /\
  FakeCall.Len c = 0 /\
  FakeCall.Get c n i = Returns None /\
  FakeCall.Clear c = None.
Proof.
  assert (H : fold_left (@FakeCall.Add V) argss None = None)
    by (induction argss; simpl; auto).
  cbv zeta. rewrite H. now repeat split.
Qed.

End CallProperties.

Lemma int_wrap_pred (v : Z) : 0 < v < 2 ^ 63 -> int_wrap (v - 1) = v - 1.
Proof.
  intros Hv. unfold int_wrap, int64_wrap. rewrite Z.mod_small; lia.
Qed.

Lemma int_wrap_succ (v : Z) : 0 <= v -> v + 1 < 2 ^ 63 -> int_wrap (v + 1) = v + 1.
Proof. intros H0 H1. now apply int64_incr_small. Qed.

(** The factory after [k] calls: a positive counter has gone down by
    [k], not below 0; a [nil] counter or a value that is not positive has
    not moved. *)
Lemma after_calls_state (k : nat) :
  forall f : FakeSignature.SignatureFactory,
    (forall v, FakeSignature.Counter f = Some v -> v < 2 ^ 63) ->
    FakeSignature.after_calls k f
    = {| FakeSignature.Counter :=
           option_map (fun v => if v <=? 0 then v else Z.max 0 (v - Z.of_nat k))
             (FakeSignature.Counter f);
         FakeSignature.signature := FakeSignature.signature f;
         FakeSignature.f_err := FakeSignature.f_err f |}.
Proof.
  induction k as [|k IH]; intros [c sg e] Hc; cbn [FakeSignature.after_calls].
  - cbn [FakeSignature.Counter FakeSignature.signature FakeSignature.f_err].
    f_equal. destruct c as [v|]; [|reflexivity]. simpl. f_equal.
    destruct (Z.leb_spec v 0); lia.
  - unfold FakeSignature.SignatureOf.
    cbn [FakeSignature.Counter FakeSignature.signature FakeSignature.f_err].
    destruct c as [v|]; cbn [FakeCounter.Done negb].
    + specialize (Hc v eq_refl).
      destruct (Z.leb_spec v 0) as [Hv|Hv]; cbn [negb fst].
      * rewrite IH by (intros v' [= <-]; exact Hc).
        cbn [FakeSignature.Counter FakeSignature.signature FakeSignature.f_err option_map].
        destruct (Z.leb_spec v 0); [reflexivity|lia].
      * rewrite IH.
        -- cbn [FakeSignature.Counter FakeSignature.signature FakeSignature.f_err
                  FakeCounter.Decrease option_map].
           rewrite int_wrap_pred by lia. do 2 f_equal.
           destruct (Z.leb_spec (v - 1) 0); destruct (Z.leb_spec v 0); lia.
        -- cbn [FakeSignature.Counter FakeCounter.Decrease].
           intros v' [= <-]. rewrite int_wrap_pred by lia. lia.
    + cbn [fst]. rewrite IH by discriminate. reflexivity.
Qed.

(** X10: a signature factory with a counter delays its error: while the
    counter is positive each call of [SignatureOf] (or [Deserialize])
    succeeds and lowers it, and from then on every call returns the
    factory's error.  So the call number [k] (from 0) returns no error
    exactly when [k] is below the counter's initial value; with a [nil]
    counter every call returns the factory's error.  The signature
    returned is always the factory's. *)
Theorem SignatureOf_delays_error (f : FakeSignature.SignatureFactory) (k : nat) :
  (forall v, FakeSignature.Counter f = Some v -> v < 2 ^ 63) ->
  snd (FakeSignature.SignatureOf (FakeSignature.after_calls k f))
  = (FakeSignature.signature f,
     match FakeSignature.Counter f with
     | Some v => if Z.of_nat k <? v then None else FakeSignature.f_err f
     | None => FakeSignature.f_err f
     end).
Proof.
  intros Hc. rewrite after_calls_state by exact Hc.
  unfold FakeSignature.SignatureOf.
  cbn [FakeSignature.Counter FakeSignature.signature FakeSignature.f_err].
  destruct (FakeSignature.Counter f) as [v|]; cbn [option_map FakeCounter.Done];
    [|reflexivity].
  destruct (Z.leb_spec v 0) as [Hv|Hv].
  - destruct (Z.leb_spec v 0); [|lia]. cbn [negb snd].
    destruct (Z.ltb_spec (Z.of_nat k) v); [lia|reflexivity].
  - destruct (Z.leb_spec (Z.max 0 (v - Z.of_nat k)) 0);
      destruct (Z.ltb_spec (Z.of_nat k) v); cbn [negb snd]; try reflexivity; lia.
Qed.

Section HashProperties.

Variable Slice : Type.

Lemma delayed_spec (h : FakeHash.Hash Slice) :
  FakeHash.delay h < 2 ^ 63 ->
  FakeHash.delayed h
  = ({| FakeHash.delay := if 0 <? FakeHash.delay h then FakeHash.delay h - 1
                          else FakeHash.delay h;
        FakeHash.err := FakeHash.err h; FakeHash.Call := FakeHash.Call h |},
     if 0 <? FakeHash.delay h then None else FakeHash.err h).
Proof.
  intros Hd. unfold FakeHash.delayed. destruct h as [d e c]. simpl in *.
  destruct (Z.ltb_spec 0 d); [|reflexivity]. now rewrite int_wrap_pred by lia.
Qed.

Lemma run_op_spec (h : FakeHash.Hash Slice) (o : FakeHash.op Slice) :
  FakeHash.delay h < 2 ^ 63 ->
  FakeHash.run_op h o
  = ({| FakeHash.delay := if 0 <? FakeHash.delay h then FakeHash.delay h - 1
                          else FakeHash.delay h;
        FakeHash.err := FakeHash.err h;
        FakeHash.Call := fold_left (@FakeCall.Add Slice) (FakeHash.written [o])
                           (FakeHash.Call h) |},
     if 0 <? FakeHash.delay h then None else FakeHash.err h).
Proof.
  intros Hd. destruct o as [data| |data]; unfold FakeHash.run_op.
  - unfold FakeHash.Write.
    assert (E : match FakeHash.Call h with
                | None => h
                | Some _ => {| FakeHash.delay := FakeHash.delay h;
                               FakeHash.err := FakeHash.err h;
                               FakeHash.Call := FakeCall.Add (FakeHash.Call h) [Some data] |}
                end
                = {| FakeHash.delay := FakeHash.delay h; FakeHash.err := FakeHash.err h;
                     FakeHash.Call := FakeCall.Add (FakeHash.Call h) [Some data] |}).
    { destruct h as [d e [c|]]; reflexivity. }
    rewrite E, delayed_spec by exact Hd. reflexivity.
  - unfold FakeHash.MarshalBinary. rewrite delayed_spec by exact Hd. reflexivity.
  - unfold FakeHash.UnmarshalBinary. rewrite delayed_spec by exact Hd. reflexivity.
Qed.

(** X11: [Write], [MarshalBinary] and [UnmarshalBinary] of the fake hash
    share one delay: in any sequence of calls of the three, the call
    number [j] (from 0) returns no error exactly when [j] is below the
    initial [delay], and the hash's error afterwards; the [Call] of the
    hash records exactly the slices passed to the [Write] calls, in
    order, whether they succeeded or not.  It records the slices, not
    copies of their bytes: a buffer written twice is recorded twice. *)
Theorem Hash_delay_is_shared (os : list (FakeHash.op Slice)) :
  forall h : FakeHash.Hash Slice,
    FakeHash.delay h < 2 ^ 63 ->
    snd (FakeHash.run_ops h os)
    = map (fun j => if Z.of_nat j <? FakeHash.delay h then None else FakeHash.err h)
        (seq 0 (List.length os)) /\
    FakeHash.Call (fst (FakeHash.run_ops h os))
    = fold_left (@FakeCall.Add Slice) (FakeHash.written os) (FakeHash.Call h).
Proof.
  induction os as [|o os IH]; intros h Hd; [now split|].
  cbn [FakeHash.run_ops]. rewrite run_op_spec by exact Hd.
  set (h1 := {| FakeHash.delay := _; FakeHash.err := _; FakeHash.Call := _ |}).
  assert (Hd1 : FakeHash.delay h1 < 2 ^ 63).
  { unfold h1. cbn [FakeHash.delay]. destruct (0 <? FakeHash.delay h); lia. }
  destruct (IH h1 Hd1) as [He Hc].
  destruct (FakeHash.run_ops h1 os) as [h2 es]. cbn [fst snd] in *. split.
  - rewrite He. cbn [List.length seq map]. f_equal.
    rewrite <- seq_shift, map_map. apply map_ext. intros j.
    unfold h1. cbn [FakeHash.delay FakeHash.err].
    destruct (Z.ltb_spec 0 (FakeHash.delay h));
      destruct (Z.ltb_spec (Z.of_nat j) (FakeHash.delay h - 1));
      destruct (Z.ltb_spec (Z.of_nat (Datatypes.S j)) (FakeHash.delay h));
      destruct (Z.ltb_spec (Z.of_nat j) (FakeHash.delay h));
      try reflexivity; lia.
  - rewrite Hc. unfold h1. cbn [FakeHash.Call].
    assert (E : FakeHash.written (o :: os)
                = FakeHash.written [o] ++ FakeHash.written os)
      by (unfold FakeHash.written; simpl; now rewrite app_nil_r).
    now rewrite E, fold_left_app.
Qed.

End HashProperties.

(** ** Little-endian encoding *)

Lemma Z_of_byte_of_Z (v : Z) : Z_of_byte (byte_of_Z v) = v mod 256.
Proof.
  unfold Z_of_byte, byte_of_Z.
  pose proof (Z.mod_pos_bound v 256 ltac:(lia)) as Hb.
  destruct (Byte.of_N (Z.to_N (v mod 256))) as [b|] eqn:E.
  - apply Byte.to_of_N in E. rewrite E. apply Z2N.id. lia.
  - apply Byte.of_N_None_iff in E. lia.
Qed.

Lemma Z_of_byte_range (b : byte) : 0 <= Z_of_byte b < 256.
Proof.
  unfold Z_of_byte. pose proof (Byte.to_N_bounded b). lia.
Qed.

Lemma byte_of_Z_of_byte (b : byte) : byte_of_Z (Z_of_byte b) = b.
Proof.
  unfold byte_of_Z. pose proof (Z_of_byte_range b).
  rewrite Z.mod_small by lia. unfold Z_of_byte. rewrite N2Z.id, Byte.of_to_N. reflexivity.
Qed.

Lemma testbit_byte_high (b : byte) (m : Z) : 8 <= m -> Z.testbit (Z_of_byte b) m = false.
Proof.
  intros Hm. pose proof (Z_of_byte_range b).
  rewrite <- (Z.mod_small (Z_of_byte b) (2 ^ 8)) by (simpl; lia).
  apply Z.mod_pow2_bits_high. lia.
Qed.

Lemma le32_split (v : Z) :
  0 <= v < 2 ^ 32 ->
  le32 (v mod 256) (Z.shiftr v 8 mod 256) (Z.shiftr v 16 mod 256) (Z.shiftr v 24 mod 256) = v.
Proof.
  intros Hv. unfold le32. apply Z.bits_inj'. intros n Hn.
  rewrite !Z.lor_spec, !Z.shiftl_spec by lia.
  change 256 with (2 ^ 8).
  assert (Hhigh : forall m, 32 <= m -> Z.testbit v m = false).
  { intros m Hm. rewrite <- (Z.mod_small v (2 ^ 32)) by lia.
    apply Z.mod_pow2_bits_high. lia. }
  destruct (Z.lt_ge_cases n 8) as [H8|H8].
  - rewrite Z.mod_pow2_bits_low by lia.
    rewrite !(Z.testbit_neg_r _ (n - _)) by lia. now rewrite !orb_false_r.
  - rewrite (Z.mod_pow2_bits_high v 8 n) by lia.
    destruct (Z.lt_ge_cases n 16) as [H16|H16].
    + rewrite (Z.mod_pow2_bits_low _ 8 (n - 8)) by lia.
      rewrite Z.shiftr_spec by lia.
      rewrite !(Z.testbit_neg_r _ (n - 16)), !(Z.testbit_neg_r _ (n - 24)) by lia.
      simpl. rewrite !orb_false_r. f_equal. lia.
    + rewrite (Z.mod_pow2_bits_high _ 8 (n - 8)) by lia.
      destruct (Z.lt_ge_cases n 24) as [H24|H24].
      * rewrite (Z.mod_pow2_bits_low _ 8 (n - 16)) by lia.
        rewrite Z.shiftr_spec by lia.
        rewrite !(Z.testbit_neg_r _ (n - 24)) by lia.
        simpl. rewrite !orb_false_r. f_equal. lia.
      * rewrite (Z.mod_pow2_bits_high _ 8 (n - 16)) by lia. simpl.
        destruct (Z.lt_ge_cases n 32) as [H32|H32].
        -- rewrite (Z.mod_pow2_bits_low _ 8 (n - 24)) by lia.
           rewrite Z.shiftr_spec by lia. f_equal. lia.
        -- rewrite (Z.mod_pow2_bits_high _ 8 (n - 24)) by lia.
           symmetry. apply Hhigh. lia.
Qed.

Lemma le32_range (b0 b1 b2 b3 : byte) :
  0 <= le32 (Z_of_byte b0) (Z_of_byte b1) (Z_of_byte b2) (Z_of_byte b3) < 2 ^ 32.
Proof.
  set (x := le32 _ _ _ _).
  assert (H0 : 0 <= x).
  { unfold x, le32. pose proof (Z_of_byte_range b0). pose proof (Z_of_byte_range b1).
    pose proof (Z_of_byte_range b2). pose proof (Z_of_byte_range b3).
    repeat (apply Z.lor_nonneg; split); try apply Z.shiftl_nonneg; lia. }
  split; [exact H0|].
  assert (E : x = x mod 2 ^ 32).
  { apply Z.bits_inj'. intros n Hn.
    destruct (Z.lt_ge_cases n 32) as [H32|H32].
    - now rewrite Z.mod_pow2_bits_low by lia.
    - rewrite Z.mod_pow2_bits_high by lia. unfold x, le32.
      rewrite !Z.lor_spec, !Z.shiftl_spec by lia.
      rewrite !testbit_byte_high by lia. reflexivity. }
  rewrite E. apply Z.mod_pos_bound. lia.
Qed.

Lemma testbit_byte_neg (b : byte) (m : Z) : m < 0 -> Z.testbit (Z_of_byte b) m = false.
Proof. intros. now apply Z.testbit_neg_r. Qed.

Lemma le32_bytes (b0 b1 b2 b3 : byte) :
  let x := le32 (Z_of_byte b0) (Z_of_byte b1) (Z_of_byte b2) (Z_of_byte b3) in
  x mod 256 = Z_of_byte b0 /\
  Z.shiftr x 8 mod 256 = Z_of_byte b1 /\
  Z.shiftr x 16 mod 256 = Z_of_byte b2 /\
  Z.shiftr x 24 mod 256 = Z_of_byte b3.
Proof.
  intros x. change 256 with (2 ^ 8).
  assert (Hbit : forall n, 0 <= n ->
            Z.testbit x n
            = (Z.testbit (Z_of_byte b0) n || Z.testbit (Z_of_byte b1) (n - 8)
               || Z.testbit (Z_of_byte b2) (n - 16) || Z.testbit (Z_of_byte b3) (n - 24))%bool).
  { intros n Hn. unfold x, le32. now rewrite !Z.lor_spec, !Z.shiftl_spec by lia. }
  assert (Hmod : forall (y : Z) (b : byte),
            (forall n, 0 <= n < 8 -> Z.testbit y n = Z.testbit (Z_of_byte b) n) ->
            y mod 2 ^ 8 = Z_of_byte b).
  { intros y b Hy. apply Z.bits_inj'. intros n Hn.
    destruct (Z.lt_ge_cases n 8).
    - rewrite Z.mod_pow2_bits_low by lia. apply Hy. lia.
    - rewrite Z.mod_pow2_bits_high by lia. symmetry. now apply testbit_byte_high. }
  repeat split; apply Hmod; intros n Hn;
    rewrite ?Z.shiftr_spec by lia; rewrite Hbit by lia.
  - rewrite !(Z.testbit_neg_r _ (n - _)) by lia. now rewrite !orb_false_r.
  - rewrite (testbit_byte_high b0) by lia.
    rewrite (Z.testbit_neg_r _ (n + 8 - 16)), (Z.testbit_neg_r _ (n + 8 - 24)) by lia.
    simpl. rewrite !orb_false_r. f_equal. lia.
  - rewrite (testbit_byte_high b0), (testbit_byte_high b1) by lia.
    rewrite (Z.testbit_neg_r _ (n + 16 - 24)) by lia.
    simpl. rewrite !orb_false_r. f_equal. lia.
  - rewrite (testbit_byte_high b0), (testbit_byte_high b1), (testbit_byte_high b2) by lia.
    simpl. f_equal. lia.
Qed.

Lemma byte_of_Z_mod (v : Z) (b : byte) : v mod 256 = Z_of_byte b -> byte_of_Z v = b.
Proof.
  intros E. unfold byte_of_Z. rewrite E. unfold Z_of_byte.
  now rewrite N2Z.id, Byte.of_to_N.
Qed.

Lemma Uint32_PutUint32 (v : Z) :
  0 <= v < 2 ^ 32 -> Uint32 (PutUint32 v) = Returns v.
Proof.
  intros Hv. unfold Uint32, PutUint32. rewrite !Z_of_byte_of_Z.
  now rewrite le32_split.
Qed.

(** X12: the text form of a fake address keeps the index modulo 2^32 and
    nothing else: [FromText] of what [MarshalText] writes is the address
    of index [index mod 2^32] with no error.  So an address made by
    [NewAddress] with an index in [0, 2^32) is read back unchanged, while
    a negative index and the error of a bad address are not. *)
Theorem Address_text_round_trip (a : FakeAddress.Address) :
  List.length (fst (FakeAddress.MarshalText a)) = 4%nat /\
  FakeAddress.FromText (fst (FakeAddress.MarshalText a))
  = Returns {| FakeAddress.index := FakeAddress.index a mod 2 ^ 32;
               FakeAddress.err := None |} /\
  (0 <= FakeAddress.index a < 2 ^ 32 ->
   FakeAddress.FromText (fst (FakeAddress.MarshalText a))
   = Returns (FakeAddress.NewAddress (FakeAddress.index a))).
Proof.
  pose proof (Z.mod_pos_bound (FakeAddress.index a) (2 ^ 32) ltac:(lia)) as Hb.
  assert (E : FakeAddress.FromText (fst (FakeAddress.MarshalText a))
              = Returns {| FakeAddress.index := FakeAddress.index a mod 2 ^ 32;
                           FakeAddress.err := None |}).
  { unfold FakeAddress.FromText, FakeAddress.MarshalText. cbn [fst].
    change (4 <=? List.length (PutUint32 (FakeAddress.index a mod 2 ^ 32)))%nat with true.
    cbv iota. now rewrite Uint32_PutUint32. }
  split; [reflexivity|]. split; [exact E|].
  intros Hi. rewrite E. unfold FakeAddress.NewAddress. now rewrite Z.mod_small.
Qed.

(** X13: [FromText] never panics and never fails; it reads the first four
    bytes only; the index it returns is in [0, 2^32) and is 0 for a text
    shorter than four bytes; and for a text of at least four bytes,
    [MarshalText] of the address read gives those four bytes back. *)
Theorem FromText_reads_four_bytes (text : bytes) :
  exists a,
    FakeAddress.FromText text = Returns a /\
    FakeAddress.FromText (firstn 4 text) = Returns a /\
    0 <= FakeAddress.index a < 2 ^ 32 /\
    FakeAddress.err a = None /\
    ((List.length text < 4)%nat -> FakeAddress.index a = 0) /\
    ((4 <= List.length text)%nat -> fst (FakeAddress.MarshalText a) = firstn 4 text).
Proof.
  destruct text as [|b0 [|b1 [|b2 [|b3 rest]]]];
    try (exists {| FakeAddress.index := 0; FakeAddress.err := None |};
         repeat split; simpl; try lia; intros; simpl in *; lia).
  exists {| FakeAddress.index := le32 (Z_of_byte b0) (Z_of_byte b1)
                                  (Z_of_byte b2) (Z_of_byte b3);
            FakeAddress.err := None |}.
  pose proof (le32_range b0 b1 b2 b3) as Hr.
  destruct (le32_bytes b0 b1 b2 b3) as (E0 & E1 & E2 & E3).
  split; [reflexivity|]. split; [reflexivity|]. split; [exact Hr|].
  split; [reflexivity|]. split; [simpl; lia|].
  intros _. unfold FakeAddress.MarshalText, PutUint32. cbn [fst FakeAddress.index firstn].
  rewrite (Z.mod_small _ (2 ^ 32)) by exact Hr.
  now rewrite (byte_of_Z_mod _ b0 E0), (byte_of_Z_mod _ b1 E1),
    (byte_of_Z_mod _ b2 E2), (byte_of_Z_mod _ b3 E3).
Qed.

(** ** Iterators *)

Lemma slice_at_of_nat {A : Type} (l : list A) (n : nat) :
  slice_at l (Z.of_nat n)
  = match nth_error l n with Some a => Returns a | None => Panics end.
Proof.
  unfold slice_at. destruct (Z.ltb_spec (Z.of_nat n) 0); [lia|]. now rewrite Nat2Z.id.
Qed.

Lemma slice_at_Returns {A : Type} (l : list A) (i : Z) (a : A) :
  slice_at l i = Returns a <-> 0 <= i /\ nth_error l (Z.to_nat i) = Some a.
Proof.
  unfold slice_at. destruct (Z.ltb_spec i 0).
  - split; [discriminate|lia].
  - destruct (nth_error l (Z.to_nat i)); split;
      try discriminate; try (intros [= ->]; now split); intros [_ H0]; congruence.
Qed.

Lemma slice_at_Panics {A : Type} (l : list A) (i : Z) :
  slice_at l i = Panics <-> ~ (0 <= i < Z.of_nat (List.length l)).
Proof.
  unfold slice_at. destruct (Z.ltb_spec i 0); [split; [lia|reflexivity]|].
  destruct (nth_error l (Z.to_nat i)) eqn:E.
  - assert ((Z.to_nat i < List.length l)%nat) by (apply nth_error_Some; congruence).
    split; [discriminate|lia].
  - apply nth_error_None in E. split; [lia|reflexivity].
Qed.

Section IteratorProperties.

Variable A : Type.

(** X14: an address iterator walks its slice in order: after [Seek] to a
    position [j] inside the slice, [k] calls of [GetNext] return the [k]
    elements from position [j] on and leave the iterator at [j + k], as
    long as [j + k] does not pass the end; a call past the end panics. *)
Theorem AddressIterator_take_next (l : list A) (k : nat) :
  forall j : nat,
    Z.of_nat (List.length l) < 2 ^ 63 ->
    (j <= List.length l)%nat ->
    FakeIterator.take_next k
      (FakeIterator.Seek (FakeIterator.NewAddressIterator l) (Z.of_nat j))
    = if (j + k <=? List.length l)%nat
      then Returns (firstn k (skipn j l),
                    FakeIterator.Seek (FakeIterator.NewAddressIterator l)
                      (Z.of_nat (j + k)))
      else Panics.
Proof.
  unfold FakeIterator.Seek, FakeIterator.NewAddressIterator.
  cbn [FakeIterator.addrs].
  induction k as [|k IH]; intros j Hlen Hj; cbn [FakeIterator.take_next].
  - rewrite Nat.add_0_r. destruct (Nat.leb_spec j (List.length l)); [reflexivity|lia].
  - unfold FakeIterator.GetNext. cbn [FakeIterator.addrs FakeIterator.index].
    rewrite slice_at_of_nat.
    destruct (nth_error l j) as [a|] eqn:Ha.
    + assert (Hlt : (j < List.length l)%nat) by (apply nth_error_Some; congruence).
      rewrite int_wrap_succ by lia.
      replace (Z.of_nat j + 1) with (Z.of_nat (Datatypes.S j)) by lia.
      rewrite IH by lia.
      replace (Datatypes.S j + k)%nat with (j + Datatypes.S k)%nat by lia.
      destruct (Nat.leb_spec (j + Datatypes.S k) (List.length l)); [|reflexivity].
      rewrite (skipn_nth_error _ _ Ha). reflexivity.
    + apply nth_error_None in Ha.
      destruct (Nat.leb_spec (j + Datatypes.S k) (List.length l)); [lia|reflexivity].
Qed.

(** X15: [GetNext] of an address iterator panics exactly when the
    position is negative or [HasNext] is false; in particular, after
    [Seek] to a negative position [HasNext] is true and [GetNext]
    panics. *)
Theorem AddressIterator_GetNext_panics (it : FakeIterator.AddressIterator A) :
  (FakeIterator.GetNext it = Panics <->
   FakeIterator.index it < 0 \/ FakeIterator.HasNext it = false) /\
  (forall i, i < 0 ->
             FakeIterator.HasNext (FakeIterator.Seek it i) = true /\
             FakeIterator.GetNext (FakeIterator.Seek it i) = Panics).
Proof.
  assert (H : forall it0 : FakeIterator.AddressIterator A,
             FakeIterator.GetNext it0 = Panics <->
             FakeIterator.index it0 < 0 \/ FakeIterator.HasNext it0 = false).
  { intros it0.
    assert (Hg : FakeIterator.GetNext it0 = Panics <->
                 slice_at (FakeIterator.addrs it0) (FakeIterator.index it0) = Panics).
    { unfold FakeIterator.GetNext.
      destruct (slice_at (FakeIterator.addrs it0) (FakeIterator.index it0));
        split; congruence. }
    rewrite Hg, slice_at_Panics. unfold FakeIterator.HasNext. rewrite Z.ltb_ge.
    split; lia. }
  split; [apply H|]. intros i Hi. split.
  - unfold FakeIterator.HasNext, FakeIterator.Seek.
    cbn [FakeIterator.index FakeIterator.addrs]. apply Z.ltb_lt. lia.
  - apply H. left. exact Hi.
Qed.

End IteratorProperties.

Section KeyIteratorProperties.

Variables Signer PublicKey : Type.
Variable GetPublicKey : Signer -> PublicKey.

Lemma pk_GetNext_step (ss : list Signer) (j : nat) :
  Z.of_nat (List.length ss) < 2 ^ 63 ->
  FakeIterator.pk_GetNext GetPublicKey
    {| FakeIterator.signers := map Some ss; FakeIterator.pk_index := Z.of_nat j |}
  = Returns (option_map GetPublicKey (nth_error ss j),
             {| FakeIterator.signers := map Some ss;
                FakeIterator.pk_index := Z.of_nat (Nat.min (Datatypes.S j)
                                                    (Nat.max j (List.length ss))) |}).
Proof.
  intros Hlen. unfold FakeIterator.pk_GetNext, FakeIterator.pk_HasNext.
  cbn [FakeIterator.signers FakeIterator.pk_index]. rewrite length_map.
  destruct (Z.ltb_spec (Z.of_nat j) (Z.of_nat (List.length ss))) as [Hlt|Hge].
  - rewrite slice_at_of_nat, nth_error_map.
    destruct (nth_error ss j) as [s|] eqn:Hs.
    + cbn [option_map]. rewrite int_wrap_succ by lia. do 3 f_equal. lia.
    + apply nth_error_None in Hs. lia.
  - rewrite (proj2 (nth_error_None ss j)) by lia. cbn [option_map].
    do 3 f_equal. lia.
Qed.

Lemma pk_after_index (ss : list Signer) (k : nat) :
  forall j : nat,
    Z.of_nat (List.length ss) < 2 ^ 63 ->
    FakeIterator.pk_after GetPublicKey k
      {| FakeIterator.signers := map Some ss; FakeIterator.pk_index := Z.of_nat j |}
    = {| FakeIterator.signers := map Some ss;
         FakeIterator.pk_index := Z.of_nat (Nat.min (j + k) (Nat.max j (List.length ss))) |}.
Proof.
  induction k as [|k IH]; intros j Hlen; cbn [FakeIterator.pk_after].
  - do 2 f_equal. lia.
  - rewrite pk_GetNext_step by exact Hlen. rewrite IH by exact Hlen.
    do 2 f_equal. lia.
Qed.

(** X16: a public key iterator over non-nil signers never panics: from a
    fresh iterator, the call number [k] (from 0) of [GetNext] returns the
    public key of signer [k], and once the signers are exhausted every
    call returns [nil] and leaves the iterator where it is. *)
Theorem PublicKeyIterator_GetNext (ss : list Signer) (k : nat) :
  Z.of_nat (List.length ss) < 2 ^ 63 ->
  exists it',
    FakeIterator.pk_GetNext GetPublicKey
      (FakeIterator.pk_after GetPublicKey k
         (FakeIterator.NewPublicKeyIterator (map Some ss)))
    = Returns (option_map GetPublicKey (nth_error ss k), it') /\
    ((List.length ss <= k)%nat ->
     it' = FakeIterator.pk_after GetPublicKey k
             (FakeIterator.NewPublicKeyIterator (map Some ss))).
Proof.
  intros Hlen. unfold FakeIterator.NewPublicKeyIterator.
  change 0 with (Z.of_nat 0). rewrite pk_after_index by exact Hlen.
  rewrite pk_GetNext_step by exact Hlen.
  eexists. split.
  - f_equal. f_equal.
    destruct (Nat.le_gt_cases (List.length ss) k) as [Hge|Hlt].
    + rewrite (proj2 (nth_error_None ss k)) by exact Hge.
      now rewrite (proj2 (nth_error_None ss _)) by lia.
    + do 2 f_equal. lia.
  - intros Hge. do 2 f_equal. lia.
Qed.

End KeyIteratorProperties.

(** ** The collective authority *)

Section AuthorityProperties.

Variables Signer PublicKey V : Type.
Variable GetPublicKey : Signer -> PublicKey.

Lemma find_key_seq (ca : FakeAuthority.CollectiveAuthority Signer V)
    (g : nat -> option Signer) (base : Z) (n : nat)
    (addr : FakeAddress.mino_Address) :
  FakeAuthority.signers ca = map g (seq 0 n) ->
  forall (len start : nat),
    (start + len <= n)%nat ->
    FakeAuthority.find_key GetPublicKey ca addr
      (map (fun i => {| FakeAddress.index := Z.of_nat i + base;
                        FakeAddress.err := None |}) (seq start len))
      (Z.of_nat start)
    = match addr with
      | FakeAddress.addr_fake a =>
          if (base + Z.of_nat start <=? FakeAddress.index a)
             && (FakeAddress.index a <? base + Z.of_nat (start + len))
          then match g (Z.to_nat (FakeAddress.index a - base)) with
               | Some s => Returns (Some (GetPublicKey s), FakeAddress.index a - base)
               | None => Panics
               end
          else Returns (None, -1)
      | _ => Returns (None, -1)
      end.
Proof.
  intros Hs. induction len as [|len IH]; intros start Hle; cbn [seq map FakeAuthority.find_key].
  - destruct addr as [|a|t]; try reflexivity.
    destruct (Z.leb_spec (base + Z.of_nat start) (FakeAddress.index a));
      destruct (Z.ltb_spec (FakeAddress.index a) (base + Z.of_nat (start + 0)));
      try reflexivity; lia.
  - replace (Z.of_nat start + 1) with (Z.of_nat (Datatypes.S start)) by lia.
    rewrite IH by lia.
    destruct addr as [|a|t]; try reflexivity.
    unfold FakeAddress.Equal. cbn [FakeAddress.index].
    destruct (Z.eqb_spec (FakeAddress.index a) (Z.of_nat start + base)) as [E|E].
    + rewrite slice_at_of_nat, Hs, nth_error_map, nth_error_seq.
      destruct (Nat.ltb_spec start n); [|lia]. cbn [option_map].
      destruct (Z.leb_spec (base + Z.of_nat start) (FakeAddress.index a)); [|lia].
      destruct (Z.ltb_spec (FakeAddress.index a) (base + Z.of_nat (start + Datatypes.S len)));
        [|lia].
      cbn [andb].
      replace (FakeAddress.index a - base) with (Z.of_nat start) by lia.
      rewrite Nat2Z.id. reflexivity.
    + destruct (Z.leb_spec (base + Z.of_nat (Datatypes.S start)) (FakeAddress.index a));
        destruct (Z.leb_spec (base + Z.of_nat start) (FakeAddress.index a));
        destruct (Z.ltb_spec (FakeAddress.index a) (base + Z.of_nat (Datatypes.S start + len)));
        destruct (Z.ltb_spec (FakeAddress.index a) (base + Z.of_nat (start + Datatypes.S len)));
        cbn [andb]; try reflexivity; lia.
Qed.

Lemma authority_addrs (base : Z) (n : nat) :
  - 2 ^ 63 <= base -> base + Z.of_nat n <= 2 ^ 63 ->
  map (fun i => {| FakeAddress.index := int_wrap (Z.of_nat i + base);
                   FakeAddress.err := None |}) (seq 0 n)
  = map (fun i => {| FakeAddress.index := Z.of_nat i + base;
                     FakeAddress.err := None |}) (seq 0 n).
Proof.
  intros Hb Hn. apply map_ext_in. intros i Hi. apply in_seq in Hi. f_equal.
  unfold int_wrap, int64_wrap. rewrite Z.mod_small; lia.
Qed.

(** X17: the authority made by [NewAuthorityWithBase base n g] has [n]
    members, member [i] having the address of index [base + i] and the
    [i]-th signer generated by [g].  [GetPublicKey] finds a fake address
    by its index alone, whatever its error field: for an index
    [base + i] with [i] in [0, n) it returns the public key of signer
    [i] and the position [i]; for every other address, a [nil] address or
    an address of another type it returns [(nil, -1)]. *)
Theorem NewAuthorityWithBase_lookup (base n : Z) (g : nat -> option Signer) :
  0 <= n -> - 2 ^ 63 <= base -> base + n <= 2 ^ 63 ->
  exists ca : FakeAuthority.CollectiveAuthority Signer V,
    FakeAuthority.NewAuthorityWithBase V base n g = Returns ca /\
    FakeAuthority.Len ca = n /\
    (forall i, 0 <= i < n ->
               FakeAuthority.GetAddress ca i = Returns (FakeAddress.NewAddress (base + i)) /\
               FakeAuthority.GetSigner ca i = Returns (g (Z.to_nat i))) /\
    (forall i e s,
        0 <= i < n -> g (Z.to_nat i) = Some s ->
        FakeAuthority.GetPublicKey_ GetPublicKey ca
          (FakeAddress.addr_fake {| FakeAddress.index := base + i; FakeAddress.err := e |})
        = Returns (Some (GetPublicKey s), i)) /\
    (forall addr,
        (forall a, addr = FakeAddress.addr_fake a ->
                   ~ (base <= FakeAddress.index a < base + n)) ->
        FakeAuthority.GetPublicKey_ GetPublicKey ca addr = Returns (None, -1)).
Proof.
  intros Hn Hb Hbn. unfold FakeAuthority.NewAuthorityWithBase.
  destruct (Z.ltb_spec n 0); [lia|].
  rewrite authority_addrs by lia.
  set (ca := {| FakeAuthority.addrs := _; FakeAuthority.signers := _;
                FakeAuthority.Call := _; FakeAuthority.PubkeyNotFound := _ |}).
  assert (Hsg : FakeAuthority.signers ca = map g (seq 0 (Z.to_nat n))) by reflexivity.
  exists ca. split; [reflexivity|].
  unfold FakeAuthority.Len, FakeAuthority.GetAddress, FakeAuthority.GetSigner,
    FakeAuthority.GetPublicKey_.
  change (FakeAuthority.PubkeyNotFound ca) with false. cbv iota.
  change (FakeAuthority.addrs ca)
    with (map (fun i => {| FakeAddress.index := Z.of_nat i + base;
                           FakeAddress.err := None |}) (seq 0 (Z.to_nat n))).
  rewrite Hsg.
  split; [rewrite length_map, length_seq; lia|].
  split; [|split].
  - intros i Hi. rewrite <- (Z2Nat.id i) at 1 3 by lia.
    rewrite !slice_at_of_nat, !nth_error_map, nth_error_seq.
    destruct (Nat.ltb_spec (Z.to_nat i) (Z.to_nat n)); [|lia]. cbn [option_map].
    split; [|reflexivity]. unfold FakeAddress.NewAddress. do 2 f_equal. lia.
  - intros i e s Hi Hs.
    rewrite (@find_key_seq ca g base (Z.to_nat n) _ Hsg (Z.to_nat n) 0%nat) by lia.
    cbn [FakeAddress.index].
    destruct (Z.leb_spec (base + Z.of_nat 0) (base + i)); [|lia].
    destruct (Z.ltb_spec (base + i) (base + Z.of_nat (0 + Z.to_nat n))); [|lia].
    cbn [andb]. replace (base + i - base) with i by lia. now rewrite Hs.
  - intros addr Hout.
    rewrite (@find_key_seq ca g base (Z.to_nat n) _ Hsg (Z.to_nat n) 0%nat) by lia.
    destruct addr as [|a|t]; try reflexivity.
    specialize (Hout a eq_refl).
    destruct (Z.leb_spec (base + Z.of_nat 0) (FakeAddress.index a));
      destruct (Z.ltb_spec (FakeAddress.index a) (base + Z.of_nat (0 + Z.to_nat n)));
      cbn [andb]; try reflexivity; lia.
Qed.

Lemma take_loop_spec (ca : FakeAuthority.CollectiveAuthority Signer V) (indices : list Z) :
  (Forall (fun k => 0 <= k < Z.of_nat (List.length (FakeAuthority.addrs ca)) /\
                    k < Z.of_nat (List.length (FakeAuthority.signers ca))) indices ->
   exists la ls,
     FakeAuthority.take_loop ca indices = Returns (la, ls) /\
     Forall2 (fun k a => slice_at (FakeAuthority.addrs ca) k = Returns a) indices la /\
     Forall2 (fun k s => slice_at (FakeAuthority.signers ca) k = Returns s) indices ls) /\
  (~ Forall (fun k => 0 <= k < Z.of_nat (List.length (FakeAuthority.addrs ca)) /\
                      k < Z.of_nat (List.length (FakeAuthority.signers ca))) indices ->
   FakeAuthority.take_loop ca indices = Panics).
Proof.
  induction indices as [|k rest [IHok IHbad]]; cbn [FakeAuthority.take_loop].
  - split; [intros _; exists [], []; repeat split; constructor|].
    intros Hno. exfalso. apply Hno. constructor.
  - pose proof (slice_at_Panics (FakeAuthority.addrs ca) k) as Hpa.
    pose proof (slice_at_Panics (FakeAuthority.signers ca) k) as Hps.
    split.
    + intros Hall. inversion Hall as [|? ? [Hk1 Hk2] Hrest]; subst.
      destruct (slice_at (FakeAuthority.addrs ca) k) as [a|] eqn:Ea;
        [|exfalso; apply (proj1 Hpa eq_refl); lia].
      destruct (slice_at (FakeAuthority.signers ca) k) as [sg|] eqn:Es;
        [|exfalso; apply (proj1 Hps eq_refl); lia].
      destruct (IHok Hrest) as (la & ls & -> & Ha & Hs).
      exists (a :: la), (sg :: ls). repeat split; constructor; assumption.
    + intros Hno.
      destruct (slice_at (FakeAuthority.addrs ca) k) as [a|] eqn:Ea; [|reflexivity].
      destruct (slice_at (FakeAuthority.signers ca) k) as [sg|] eqn:Es; [|reflexivity].
      rewrite IHbad; [reflexivity|]. intros Hrest. apply Hno. constructor; [|exact Hrest].
      apply slice_at_Returns in Ea as [Ha0 Ea]. apply slice_at_Returns in Es as [_ Es].
      assert ((Z.to_nat k < List.length (FakeAuthority.addrs ca))%nat)
        by (apply nth_error_Some; congruence).
      assert ((Z.to_nat k < List.length (FakeAuthority.signers ca))%nat)
        by (apply nth_error_Some; congruence).
      lia.
Qed.

Lemma Forall2_slice_at {B C : Type} (P : B -> C -> Prop) (l : list B) (l' : list C) :
  Forall2 P l l' ->
  forall (j : nat) (k : B), nth_error l j = Some k ->
                            exists c, slice_at l' (Z.of_nat j) = Returns c /\ P k c.
Proof.
  induction 1 as [|x y l l' Hxy _ IH]; intros [|j] k; simpl; try discriminate.
  - intros [= <-]. exists y. now split.
  - intros Hk. destruct (IH j k Hk) as (c & Hc & Hp). exists c. split; [|exact Hp].
    rewrite slice_at_of_nat in Hc.
    change (Z.pos (Pos.of_succ_nat j)) with (Z.of_nat (Datatypes.S j)).
    rewrite slice_at_of_nat. simpl. exact Hc.
Qed.

(** X18: [Take] selects members by position: when every index of the
    filter is a position of the authority, the new authority has one
    member per index, in the filter's order, member [j] being the member
    of the old authority at the [j]-th index (the same index may be taken
    twice); it keeps the [Call] of the old authority and its
    [PubkeyNotFound] is false even if the old one's was true.  When some
    index is not a position of the authority, [Take] panics. *)
Theorem Take_selects_members
    (ca : FakeAuthority.CollectiveAuthority Signer V) (indices : list Z) :
  (Forall (fun k => 0 <= k < Z.of_nat (List.length (FakeAuthority.addrs ca)) /\
                    k < Z.of_nat (List.length (FakeAuthority.signers ca))) indices ->
   exists ca',
     FakeAuthority.Take ca indices = Returns ca' /\
     FakeAuthority.Len ca' = Z.of_nat (List.length indices) /\
     (forall j k, nth_error indices j = Some k ->
                  FakeAuthority.GetAddress ca' (Z.of_nat j) = FakeAuthority.GetAddress ca k /\
                  FakeAuthority.GetSigner ca' (Z.of_nat j) = FakeAuthority.GetSigner ca k) /\
     FakeAuthority.Call ca' = FakeAuthority.Call ca /\
     FakeAuthority.PubkeyNotFound ca' = false) /\
  (~ Forall (fun k => 0 <= k < Z.of_nat (List.length (FakeAuthority.addrs ca)) /\
                      k < Z.of_nat (List.length (FakeAuthority.signers ca))) indices ->
   FakeAuthority.Take ca indices = Panics).
Proof.
  destruct (take_loop_spec ca indices) as [Hok Hbad]. unfold FakeAuthority.Take. split.
  - intros Hall. destruct (Hok Hall) as (la & ls & -> & Ha & Hs).
    eexists. split; [reflexivity|].
    unfold FakeAuthority.Len, FakeAuthority.GetAddress, FakeAuthority.GetSigner.
    cbn [FakeAuthority.signers FakeAuthority.addrs FakeAuthority.Call
           FakeAuthority.PubkeyNotFound].
    split; [now rewrite <- (Forall2_length Hs)|].
    split; [|now split].
    intros j k Hk.
    destruct (Forall2_slice_at Ha j Hk) as (a & -> & ->).
    destruct (Forall2_slice_at Hs j Hk) as (sg & -> & ->). now split.
  - intros Hno. now rewrite (Hbad Hno).
Qed.

End AuthorityProperties.

(** ** The further properties at concrete inputs *)

(** X4 at the six-block store and a request for the hash of block 2. *)
Lemma Stream_stops_at_first_match_witness :
  exists tr resps,
    Stream_run (Scenario.handler_on Scenario.chain6) peer.empty
      (Scenario.request (Scenario.digest x03))
    = Some (handed peer.empty (map (fun r => (r, Address_nil)) resps), None, tr) /\
    Forall2 (response_for (Scenario.operations_on Scenario.chain6))
      (firstn 3 Scenario.chain6) resps /\
    sends tr = map (fun r => (r, Address_nil, None)) resps /\
    reads tr = [0; 1; 2].
Proof.
  assert (Hrecv : Recv (Scenario.request (Scenario.digest x03)) context_Background
                  = (fst (Recv (Scenario.request (Scenario.digest x03))
                            context_Background),
                     (Address_nil, Msg_BlockRequest {| To := Scenario.digest x03 |},
                      None))) by reflexivity.
  apply (@Stream_stops_at_first_match _ _ fake_Receiver peer_Sender
           (Scenario.handler_on Scenario.chain6)
           (fun _ => True) peer.empty
           (Scenario.request (Scenario.digest x03)) _ Address_nil
           {| To := Scenario.digest x03 |}
           (firstn 2 Scenario.chain6) (skipn 3 Scenario.chain6)
           (Scenario.block 2 x03 x02) Hrecv).
  - reflexivity.
  - simpl. lia.
  - discriminate.
  - simpl. intros b [<-|[<-|[]]]; discriminate.
  - reflexivity.
  - intros b _. eexists. reflexivity.
  - intros b _ _. eexists. eexists. split; reflexivity.
  - intros s r a _. split; [reflexivity | exact I].
  - exact I.
Defined.

(** X5 at the six-block store and a hash that no block has. *)
Lemma Stream_unknown_target_streams_store_witness :
  exists tr resps cause,
    Stream_run (Scenario.handler_on Scenario.chain6) peer.empty
      (Scenario.request (Scenario.digest x09))
    = Some (handed peer.empty (map (fun r => (r, Address_nil)) resps),
            Some (Errorf "couldn't read block at index 6: " cause), tr) /\
    Forall2 (response_for (Scenario.operations_on Scenario.chain6))
      Scenario.chain6 resps /\
    sends tr = map (fun r => (r, Address_nil, None)) resps.
Proof.
  assert (Hrecv : Recv (Scenario.request (Scenario.digest x09)) context_Background
                  = (fst (Recv (Scenario.request (Scenario.digest x09))
                            context_Background),
                     (Address_nil, Msg_BlockRequest {| To := Scenario.digest x09 |},
                      None))) by reflexivity.
  apply (@Stream_unknown_target_streams_store _ _ fake_Receiver peer_Sender
           (Scenario.handler_on Scenario.chain6)
           (fun _ => True) peer.empty
           (Scenario.request (Scenario.digest x09)) _ Address_nil
           {| To := Scenario.digest x09 |} Hrecv).
  - simpl. lia.
  - discriminate.
  - simpl. intros b [<-|[<-|[<-|[<-|[<-|[<-|[]]]]]]]; discriminate.
  - intros b _. eexists. reflexivity.
  - intros b _ _. eexists. eexists. split; reflexivity.
  - intros s r a _. split; [reflexivity | exact I].
  - exact I.
Defined.

(** X10 at a factory whose error is delayed by two calls: the third call
    fails. *)
Lemma SignatureOf_delays_error_witness :
  snd (FakeSignature.SignatureOf
         (FakeSignature.after_calls 1 (FakeSignature.NewBadSignatureFactoryWithDelay 2)))
  = ({| FakeSignature.sig_err := None |}, None) /\
  snd (FakeSignature.SignatureOf
         (FakeSignature.after_calls 2 (FakeSignature.NewBadSignatureFactoryWithDelay 2)))
  = ({| FakeSignature.sig_err := None |}, Some "fake error").
Proof.
  split.
  - apply (@SignatureOf_delays_error (FakeSignature.NewBadSignatureFactoryWithDelay 2) 1).
    intros v [= <-]. lia.
  - apply (@SignatureOf_delays_error (FakeSignature.NewBadSignatureFactoryWithDelay 2) 2).
    intros v [= <-]. lia.
Defined.

(** X11 at a hash delayed by two calls that records its writes, the
    slices being named: the buffer "b" is written twice, with a call of
    [MarshalBinary] in between. *)
Lemma Hash_delay_is_shared_witness :
  snd (FakeHash.run_ops
         {| FakeHash.delay := 2; FakeHash.err := Some "fake error";
            FakeHash.Call := FakeCall.empty string |}
         [FakeHash.OpWrite "b"; FakeHash.OpMarshalBinary; FakeHash.OpWrite "b"])
  = [None; None; Some "fake error"] /\
  FakeHash.Call
    (fst (FakeHash.run_ops
            {| FakeHash.delay := 2; FakeHash.err := Some "fake error";
               FakeHash.Call := FakeCall.empty string |}
            [FakeHash.OpWrite "b"; FakeHash.OpMarshalBinary; FakeHash.OpWrite "b"]))
  = Some [[Some "b"]; [Some "b"]].
Proof.
  apply (@Hash_delay_is_shared string
           [FakeHash.OpWrite "b"; FakeHash.OpMarshalBinary; FakeHash.OpWrite "b"]
           {| FakeHash.delay := 2; FakeHash.err := Some "fake error";
              FakeHash.Call := FakeCall.empty string |}).
  simpl. lia.
Defined.

(** X14 at a slice of three elements, from position 1. *)
Lemma AddressIterator_take_next_witness :
  FakeIterator.take_next 2
    (FakeIterator.Seek (FakeIterator.NewAddressIterator [10; 20; 30]) 1)
  = Returns ([20; 30], FakeIterator.Seek (FakeIterator.NewAddressIterator [10; 20; 30]) 3)
  /\
  FakeIterator.take_next 3
    (FakeIterator.Seek (FakeIterator.NewAddressIterator [10; 20; 30]) 1)
  = Panics.
Proof.
  split.
  - apply (@AddressIterator_take_next Z [10; 20; 30] 2 1%nat); simpl; lia.
  - apply (@AddressIterator_take_next Z [10; 20; 30] 3 1%nat); simpl; lia.
Defined.

(** X16 at two signers named by strings. *)
Lemma PublicKeyIterator_GetNext_witness :
  exists it',
    FakeIterator.pk_GetNext (fun s : string => ("pk:" ++ s)%string)
      (FakeIterator.pk_after (fun s : string => ("pk:" ++ s)%string) 5
         (FakeIterator.NewPublicKeyIterator (map Some ["a"; "b"])))
    = Returns (None, it') /\
    ((2 <= 5)%nat ->
     it' = FakeIterator.pk_after (fun s : string => ("pk:" ++ s)%string) 5
             (FakeIterator.NewPublicKeyIterator (map Some ["a"; "b"]))).
Proof.
  apply (@PublicKeyIterator_GetNext string string
           (fun s : string => ("pk:" ++ s)%string) ["a"; "b"] 5).
  simpl. lia.
Defined.

(** X17 at an authority of three members whose addresses start at 10. *)
Lemma NewAuthorityWithBase_lookup_witness :
  exists ca : FakeAuthority.CollectiveAuthority string unit,
    FakeAuthority.NewAuthorityWithBase unit 10 3 (fun k => Some (fmt_d (Z.of_nat k)))
    = Returns ca /\
    FakeAuthority.Len ca = 3 /\
    FakeAuthority.GetPublicKey_ (fun s : string => ("pk:" ++ s)%string) ca
      (FakeAddress.addr_fake {| FakeAddress.index := 10 + 2;
                                FakeAddress.err := Some "fake error" |})
    = Returns (Some "pk:2", 2) /\
    FakeAuthority.GetPublicKey_ (fun s : string => ("pk:" ++ s)%string) ca
      (FakeAddress.addr_fake (FakeAddress.NewAddress 13))
    = Returns (None, -1).
Proof.
  destruct (@NewAuthorityWithBase_lookup string string unit
              (fun s : string => ("pk:" ++ s)%string) 10 3
              (fun k => Some (fmt_d (Z.of_nat k))))
    as (ca & Hca & Hlen & _ & Hfound & Hnone); try lia.
  exists ca. split; [exact Hca|]. split; [exact Hlen|]. split.
  - apply (Hfound 2 (Some "fake error") "2"); [lia|reflexivity].
  - apply Hnone. intros a [= <-]. simpl. lia.
Defined.
